(** * tumblelog: the post model, slug validation and the oEmbed refresh

    A shallow embedding of [tumblelog/models/base.py].  Python objects are
    attribute dictionaries, Python exceptions are an explicit error result,
    and the relational store, the wall clock and the remote oEmbed provider
    are threaded through a small state-and-exception monad. *)

From stdpp Require Import gmap strings list fin_maps.
From Stdlib Require Import ZArith Lia.

Open Scope Z_scope.
Open Scope string_scope.

(** ** Python values and exceptions *)

(** The values that model fields and JSON responses carry.  A [datetime]
    is its number of microseconds since the epoch. *)
Inductive pyval :=
| VNone
| VInt (n : Z)
| VStr (s : string)
| VDateTime (t : Z).

#[global] Instance pyval_eq_dec : EqDecision pyval.
Proof. solve_decision. Defined.

(** Python truth value, as used by [if self.pk:]. *)
Definition truthy (v : pyval) : bool :=
  match v with
  | VNone => false
  | VInt n => negb (Z.eqb n 0)
  | VStr s => negb (String.eqb s "")
  | VDateTime _ => true
  end.

Inductive exn :=
| ValidationError (errors : list (string * string))
| IntegrityError
| MultipleObjectsReturned
| AttributeError (name : string)
| TypeError
| DoesNotExist
| IndexError
| HTTPError (code : Z)
| RemoteError.

Inductive result (A : Type) :=
| Ok (a : A)
| Raise (e : exn).
Arguments Ok {A} a.
Arguments Raise {A} e.

(** ** The store, the clock and the provider *)

(** A row of the [Post] table (the identity record).  [post_type] is the
    content type of the referenced item, [object_id] its primary key. *)
Record Post := mkPost {
  post_pk : Z;
  post_type : string;
  object_id : Z;
  post_author : pyval;
  post_slug : pyval;
  post_status : pyval;
  post_date_added : pyval;
  post_date_modified : pyval;
  post_date_published : pyval
}.

(** A row of the table of one concrete post type. *)
Record Row := mkRow {
  row_table : string;
  row_pk : Z;
  row_fields : gmap string pyval
}.

(** What an operation does to the outside world, in order. *)
Inductive event :=
| EvFetch
| EvItemWrite (table : string) (pk : Z)
| EvPostInsert (pk : Z)
| EvPostUpdate (pk : Z).

#[global] Instance event_eq_dec : EqDecision event.
Proof. solve_decision. Defined.

(** The state a method runs in: the attributes of [self] (every attribute
    that [hasattr] sees; model fields are always present and may hold
    [None]), the two tables, the number of clock readings taken so far and
    the trace of effects, oldest first. *)
Record State := mkState {
  self : gmap string pyval;
  posts : list Post;
  rows : list Row;
  ticks : nat;
  trace : list event
}.

(** What [consumer.embed] does: it returns a response (the
    [OEmbedResponse] of python-oembed, given by the data it carries),
    raises [urllib2.HTTPError], or raises something else. *)
Inductive remote :=
| Response (data : gmap string pyval)
| HTTPFailure (code : Z)
| OtherFailure.

(** The environment: [clock n] is what the [n]-th call of
    [datetime.now()] returns, [embed] is the provider's answer to the
    request built from the instance, and [field_errors] is the outcome of
    the inherited field-level validation, [Model.clean_fields]. *)
Record Env := mkEnv {
  clock : nat -> Z;
  embed : gmap string pyval -> remote;
  field_errors : gmap string pyval -> list string -> list (string * string)
}.

(** An entry of [oembed_map] is a single name or an explicit pair. *)
Inductive mapping :=
| MName (name : string)
| MPair (prop field : string).

(** What a concrete post type declares. *)
Record PostType := mkPostType {
  class_name : string;
  oembed_map : list mapping;
  oembed_clean_value : string -> pyval -> pyval
}.

(** ** The monad *)

Definition M (A : Type) : Type := State -> result A * State.

#[global] Instance M_ret : MRet M := fun A a s => (Ok a, s).

#[global] Instance M_bind : MBind M := fun A B f m s =>
  match m s with
  | (Ok a, s') => f a s'
  | (Raise e, s') => (Raise e, s')
  end.

Definition raise {A} (e : exn) : M A := fun s => (Raise e, s).

Definition get_state : M State := fun s => (Ok s, s).

Definition getattr (name : string) : M pyval := fun s =>
  match self s !! name with
  | Some v => (Ok v, s)
  | None => (Raise (AttributeError name), s)
  end.

Definition hasattr (name : string) : M bool := fun s =>
  (Ok (bool_decide (is_Some (self s !! name))), s).

Definition setattr (name : string) (v : pyval) : M unit := fun s =>
  (Ok tt, mkState (<[name := v]> (self s)) (posts s) (rows s) (ticks s) (trace s)).

Definition emit (ev : event) : M unit := fun s =>
  (Ok tt, mkState (self s) (posts s) (rows s) (ticks s) (trace s ++ [ev])).

Definition set_posts (ps : list Post) : M unit := fun s =>
  (Ok tt, mkState (self s) ps (rows s) (ticks s) (trace s)).

Definition set_rows (rs : list Row) : M unit := fun s =>
  (Ok tt, mkState (self s) (posts s) rs (ticks s) (trace s)).

(** [datetime.now()] *)
Definition datetime_now (env : Env) : M Z := fun s =>
  (Ok (clock env (ticks s)),
   mkState (self s) (posts s) (rows s) (S (ticks s)) (trace s)).

(** [try: body / except E: handler / else: orelse] *)
Definition try_except_else {A B} (body : M A) (handles : exn -> bool)
  (handler : M B) (orelse : A -> M B) : M B := fun s =>
  match body s with
  | (Ok a, s') => orelse a s'
  | (Raise e, s') => if handles e then handler s' else (Raise e, s')
  end.

(** ** The store: what the object-relational mapper does *)

(** A primary key the table has not used yet (an auto-increment key). *)
Definition fresh_pk (used : list Z) : Z := 1 + foldr Z.max 0 used.

Definition is_DoesNotExist (e : exn) : bool :=
  match e with DoesNotExist => true | _ => false end.

Definition is_IndexError (e : exn) : bool :=
  match e with IndexError => true | _ => false end.

(** [Post.objects.get(...)]: the one row that matches. *)
Definition objects_get (matches : Post -> Prop)
  `{!forall p, Decision (matches p)} : M Post := fun s =>
  match filter matches (posts s) with
  | [] => (Raise DoesNotExist, s)
  | [p] => (Ok p, s)
  | _ :: _ :: _ => (Raise MultipleObjectsReturned, s)
  end.

(** [queryset[0]] *)
Definition first_of {A} (l : list A) : M A :=
  match l with
  | [] => raise IndexError
  | x :: _ => mret x
  end.

(** The identity record [p] points at the item [pk] of the table. *)
Definition refers_to (table : string) (pk : pyval) (p : Post) : Prop :=
  post_type p = table /\ VInt (object_id p) = pk.

#[global] Instance refers_to_dec table pk p : Decision (refers_to table pk p).
Proof. unfold refers_to. apply _. Defined.

Definition set_post_date_modified (t : pyval) (p : Post) : Post :=
  mkPost (post_pk p) (post_type p) (object_id p) (post_author p) (post_slug p)
    (post_status p) (post_date_added p) t (post_date_published p).

(** Another row than [except_pk] carries the slug. *)
Definition slug_taken (slug : pyval) (except_pk : Z) (ps : list Post) : Prop :=
  Exists (fun q => post_pk q <> except_pk /\ post_slug q = slug) ps.

Definition has_post_pk (pk : Z) (ps : list Post) : Prop :=
  Exists (fun q => post_pk q = pk) ps.

Definition replace_post (p : Post) (ps : list Post) : list Post :=
  (fun q => if decide (post_pk q = post_pk p) then p else q) <$> ps.

(** [post.save()] for a row of the [Post] table.  [date_modified] is
    declared [auto_now] (migration 0002, the frozen ['tumblelog.post']
    model), so the mapper stamps it with the current time at every save,
    whatever the instance holds; [slug] is declared [unique]. *)
Definition post_save (env : Env) (p : Post) : M unit :=
  t ← datetime_now env;
  let p' := set_post_date_modified (VDateTime t) p in
  s ← get_state;
  if decide (slug_taken (post_slug p') (post_pk p') (posts s))
  then raise IntegrityError
  else if decide (has_post_pk (post_pk p') (posts s)) then
    set_posts (replace_post p' (posts s)) ;; emit (EvPostUpdate (post_pk p'))
  else
    set_posts (posts s ++ [p']) ;; emit (EvPostInsert (post_pk p')).

(** Modelled from the spec: the manager of the identity records,
    [tumblelog.managers.PostManager], is not among the sources.  Its
    [get_or_create] "returns the existing Identity Record matching the
    given (reference_type, reference_id) pair, or atomically creates one
    if absent".  A created row takes the declared defaults (status ['d'],
    an empty slug, no author, no publication date), both automatic
    timestamps, and is subject to the uniqueness of [slug]; several
    matching rows are [MultipleObjectsReturned]. *)
Definition get_or_create (env : Env) (table : string) (oid : Z)
  : M (Post * bool) :=
  s ← get_state;
  match filter (refers_to table (VInt oid)) (posts s) with
  | [p] => mret (p, false)
  | _ :: _ :: _ => raise MultipleObjectsReturned
  | [] =>
      added ← datetime_now env;
      modified ← datetime_now env;
      let p := mkPost (fresh_pk (post_pk <$> posts s)) table oid VNone
                 (VStr "") (VStr "d") (VDateTime added) (VDateTime modified)
                 VNone in
      if decide (slug_taken (VStr "") (post_pk p) (posts s))
      then raise IntegrityError
      else set_posts (posts s ++ [p]) ;; emit (EvPostInsert (post_pk p)) ;;
           mret (p, true)
  end.

Definition has_row (table : string) (pk : Z) (rs : list Row) : Prop :=
  Exists (fun r => row_table r = table /\ row_pk r = pk) rs.

(** Another row of the table than [except_pk] carries the slug. *)
Definition row_slug_taken (table : string) (slug : pyval) (except_pk : Z)
  (rs : list Row) : Prop :=
  Exists (fun r => row_table r = table /\ row_pk r <> except_pk /\
                   row_fields r !! "slug" = Some slug) rs.

Definition table_pks (table : string) (rs : list Row) : list Z :=
  row_pk <$> filter (fun r => row_table r = table) rs.

Definition replace_row (r : Row) (rs : list Row) : list Row :=
  (fun q => if decide (row_table q = row_table r /\ row_pk q = row_pk r)
            then r else q) <$> rs.

(** [models.Model.save] for a content item: an item without a primary key,
    or whose key is not in its table, is inserted, otherwise its row is
    updated.  [date_added] is [auto_now_add] and [date_modified] is
    [auto_now]; [slug] is unique within the table of the post type. *)
Definition model_save (env : Env) (cls : PostType) : M unit :=
  let table := class_name cls in
  id ← getattr "id";
  s ← get_state;
  pk ← match id with
       | VNone => mret (fresh_pk (table_pks table (rows s)))
       | VInt n => mret n
       | _ => raise TypeError
       end;
  let add := bool_decide (~ has_row table pk (rows s)) in
  (if add then t ← datetime_now env; setattr "date_added" (VDateTime t)
   else mret tt) ;;
  t ← datetime_now env;
  setattr "date_modified" (VDateTime t) ;;
  slug ← getattr "slug";
  if decide (row_slug_taken table slug pk (rows s)) then raise IntegrityError
  else
    setattr "id" (VInt pk) ;;
    s' ← get_state;
    let row := mkRow table pk (self s') in
    set_rows (if add then rows s ++ [row] else replace_row row (rows s)) ;;
    emit (EvItemWrite table pk).

(** ** BasePostType: validation and save *)

Module BasePostType.

Definition SLUG_EXISTS : list (string * string) :=
  [("slug", "A post with this slug already exists.")].

(** [super(BasePostType, self).clean_fields(exclude)] *)
Definition super_clean_fields (env : Env) (exclude : list string) : M unit :=
  s ← get_state;
  match field_errors env (self s) exclude with
  | [] => mret tt
  | errors => raise (ValidationError errors)
  end.

(** [self.post.all()]: the identity records that refer to [self], in the
    order the store returns them. *)
Definition post_all (cls : PostType) : M (list Post) :=
  pk ← getattr "id";
  s ← get_state;
  mret (filter (refers_to (class_name cls) pk) (posts s)).

(** [clean_fields].  A model instance is always true, so the test
    [if matching_post:] in the [IndexError] handler always succeeds;
    [!=] on model instances compares primary keys. *)
Definition clean_fields (env : Env) (cls : PostType) (exclude : list string)
  : M unit :=
  super_clean_fields env exclude ;;
  slug ← getattr "slug";
  errors ←
    try_except_else
      (objects_get (fun p => post_slug p = slug))
      is_DoesNotExist
      (mret [])
      (fun matching_post =>
         try_except_else
           (all ← post_all cls; first_of all)
           is_IndexError
           (mret SLUG_EXISTS)
           (fun own_post =>
              if decide (post_pk matching_post = post_pk own_post)
              then mret [] else mret SLUG_EXISTS));
  match errors with
  | [] => mret tt
  | _ => raise (ValidationError errors)
  end.

(** The second half of [save]: look the identity record of [self] up, or
    create it, overwrite its denormalised fields and save it. *)
Definition upsert_post (env : Env) (cls : PostType) : M unit :=
  let content_type := class_name cls in
  id ← getattr "id";
  '(post, created) ← match id with
                     | VInt n => get_or_create env content_type n
                     | _ => raise IntegrityError
                     end;
  status ← getattr "status";
  date_added ← getattr "date_added";
  date_modified ← getattr "date_modified";
  date_published ← getattr "date_published";
  slug ← getattr "slug";
  author ← getattr "author";
  post_save env
    (mkPost (post_pk post) (post_type post) (object_id post) author slug
       status date_added date_modified date_published).

(** [save]: the inherited [Model.save], then the identity record. *)
Definition save (env : Env) (cls : PostType) : M unit :=
  model_save env cls ;;
  upsert_post env cls.

End BasePostType.

(** ** BasePostType: the address of an item *)

(** [BasePostType.get_absolute_url]: the address of the first identity
    record of the item.  [post_get_absolute_url] is
    [Post.get_absolute_url], which resolves the generic foreign key and
    reverses the detail view. *)
Definition get_absolute_url {A} (post_get_absolute_url : Post -> M A)
  (cls : PostType) : M A :=
  all ← BasePostType.post_all cls;
  post ← first_of all;
  post_get_absolute_url post.

(** ** BaseOembedPostType: the refresh *)

Module BaseOembedPostType.

(** [prop, field = mapping], with [except ValueError: prop, field =
    mapping, mapping].  A tuple of two names unpacks into them.  A string
    is a sequence of its characters: unpacking one raises [ValueError]
    unless it has exactly two characters, in which case it unpacks into
    them. *)
Definition unpack (m : mapping) : string * string :=
  match m with
  | MPair prop field => (prop, field)
  | MName (String a (String b EmptyString)) =>
      (String a EmptyString, String b EmptyString)
  | MName name => (name, name)
  end.

(** [response[prop]]: the response is [None] after a suppressed HTTP
    error, and subscripting [None] is a [TypeError].  Subscripting an
    [OEmbedResponse] is [self._data.get(name)]: a key that the response
    lacks reads as [None]. *)
Definition getitem (response : option (gmap string pyval)) (prop : string)
  : M pyval :=
  match response with
  | None => raise TypeError
  | Some data => mret (default VNone (data !! prop))
  end.

(** The body of the loop of [oembed_map_values] for one entry. *)
Definition map_entry (cls : PostType) (response : option (gmap string pyval))
  (m : mapping) : M unit :=
  let '(prop, field) := unpack m in
  b ← hasattr field;
  if b : bool then
    v ← getitem response prop;
    setattr field (oembed_clean_value cls field v)
  else mret tt.

Fixpoint map_entries (cls : PostType) (response : option (gmap string pyval))
  (l : list mapping) : M unit :=
  match l with
  | [] => mret tt
  | m :: rest => map_entry cls response m ;; map_entries cls response rest
  end.

Definition oembed_map_values (cls : PostType)
  (response : option (gmap string pyval)) : M unit :=
  map_entries cls response (oembed_map cls).

(** [oembed_retrieve]: falling off the end of the [except] clause returns
    [None]. *)
Definition oembed_retrieve (env : Env) (suppress_http_errors : bool)
  : M (option (gmap string pyval)) :=
  s ← get_state;
  emit EvFetch ;;
  match embed env (self s) with
  | Response data => mret (Some data)
  | HTTPFailure code =>
      if suppress_http_errors then mret None else raise (HTTPError code)
  | OtherFailure => raise RemoteError
  end.

Definition oembed_update (env : Env) (cls : PostType) : M unit :=
  t ← datetime_now env;
  setattr "date_updated" (VDateTime t) ;;
  response ← oembed_retrieve env true;
  oembed_map_values cls response.

(** [timedelta(seconds=self.cache_age) + self.date_updated], within the
    range of [timedelta] and of [datetime]; outside of it Python raises
    [OverflowError]. *)
Definition expiry_of (cache_age date_updated : pyval) : M Z :=
  match cache_age with
  | VInt seconds =>
      match date_updated with
      | VDateTime t => mret (seconds * 1000000 + t)
      | _ => raise TypeError
      end
  | _ => raise TypeError
  end.

(** [__init__], after the inherited constructor has filled in the
    attributes of [self]. *)
Definition __init__ (env : Env) (cls : PostType) : M unit :=
  pk ← getattr "id";
  if truthy pk then
    cache_age ← getattr "cache_age";
    date_updated ← getattr "date_updated";
    expiry ← expiry_of cache_age date_updated;
    now ← datetime_now env;
    if Z.ltb expiry now then oembed_update env cls else mret tt
  else mret tt.

(** [save]: refresh, then the inherited save. *)
Definition save (env : Env) (cls : PostType) : M unit :=
  oembed_update env cls ;;
  BasePostType.save env cls.

End BaseOembedPostType.

(** The field-mapping tables declared in the source. *)
Definition base_oembed_map : list mapping :=
  [MName "version"; MName "provider_name"; MName "provider_url"].

Definition photo_oembed_map : list mapping :=
  [MName "version"; MName "provider_name"; MName "provider_url";
   MName "width"; MName "height"; MPair "url" "image_url"].

Definition video_oembed_map : list mapping :=
  [MName "version"; MName "provider_name"; MName "provider_url";
   MName "width"; MName "height"; MPair "html" "embed"].

Definition BaseOembedLink : PostType :=
  mkPostType "baseoembedlink" base_oembed_map (fun _ v => v).

Definition BaseOembedPhoto : PostType :=
  mkPostType "baseoembedphoto" photo_oembed_map (fun _ v => v).

Definition BaseOembedVideo : PostType :=
  mkPostType "baseoembedvideo" video_oembed_map (fun _ v => v).

Definition BaseOembedRich : PostType :=
  mkPostType "baseoembedrich" video_oembed_map (fun _ v => v).

(** ** TumblelogMeta: the options of a post type *)

(** The values that the options take: [None], booleans, integers, tuples
    and lists of names, and references to classes. *)
Inductive optval :=
| ONone
| OBool (b : bool)
| OInt (n : Z)
| OTuple (names : list string)
| OList (names : list string)
| ORef (name : string).

Module TumblelogMeta.

(** The body of the class, assignment by assignment. *)
Definition class_body : list (string * optval) :=
  [("raw_id_fields", ONone); ("fields", ONone); ("exclude", ONone);
   ("fieldsets", ONone); ("form", ONone); ("filter_vertical", ONone);
   ("filter_horizontal", ONone); ("radio_fields", ONone);
   ("prepopulated_fields", ONone); ("formfield_overrides", ONone);
   ("readonly_fields", ONone); ("ordering", ONone); ("list_display", ONone);
   ("list_display_links", ONone); ("list_filter", ONone);
   ("list_select_related", ONone); ("list_per_page", ONone);
   ("list_max_show_all", ONone); ("list_editable", ONone);
   ("search_fields", ONone); ("date_hierarchy", ONone); ("save_as", ONone);
   ("save_on_top", ONone); ("paginator", ONone); ("inlines", ONone);
   ("list_display", OTuple ["__str__"]); ("list_display_links", OTuple []);
   ("list_filter", OTuple []); ("list_select_related", OBool false);
   ("list_per_page", OInt 100); ("list_max_show_all", OInt 200);
   ("list_editable", OTuple []); ("search_fields", OTuple []);
   ("date_hierarchy", ONone); ("save_as", OBool false);
   ("save_on_top", OBool false); ("paginator", ORef "Paginator");
   ("inlines", OList []); ("add_form_template", ONone);
   ("change_form_template", ONone); ("change_list_template", ONone);
   ("delete_confirmation_template", ONone);
   ("delete_selected_confirmation_template", ONone);
   ("object_history_template", ONone); ("actions", OList []);
   ("action_form", ORef "helpers.ActionForm"); ("actions_on_top", OBool true);
   ("actions_on_bottom", OBool false);
   ("actions_selection_counter", OBool true)].

(** [setattr] for every pair of a list, in order. *)
Definition setattr_all (l : list (string * optval))
  (dict : gmap string optval) : gmap string optval :=
  foldl (fun d kv => <[kv.1 := kv.2]> d) dict l.

(** The attributes of the class: a later assignment to a name replaces
    an earlier one. *)
Definition class_attrs : gmap string optval := setattr_all class_body ∅.

(** [__init__]: [opts] is [None] or the inner class of the post type,
    given by its [__dict__]; the result is the [__dict__] of the new
    instance. *)
Definition __init__ (opts : option (gmap string optval))
  (kwargs : gmap string optval) : gmap string optval :=
  let opts : list (string * optval) :=
    match opts with
    | Some class_dict => map_to_list class_dict
    | None => []
    end in
  let opts := (opts ++ map_to_list kwargs)%list in
  setattr_all opts ∅.

(** [__iter__]: the items of the [__dict__] of the instance. *)
Definition __iter__ (self_dict : gmap string optval)
  : list (string * optval) :=
  map_to_list self_dict.

(** Reading an option: the instance, then the class. *)
Definition getattr (self_dict : gmap string optval) (name : string)
  : option optval :=
  match self_dict !! name with
  | Some v => Some v
  | None => class_attrs !! name
  end.

End TumblelogMeta.

(** ** Migration 0002: the column [meta_description] *)

Module Migration.

(** [db.add_column]: the table must exist and must not have the column.
    A database is the set of the columns of each table; [None] is a
    database error. *)
Definition add_column (table column : string)
  (db : gmap string (gset string)) : option (gmap string (gset string)) :=
  match db !! table with
  | Some columns =>
      if decide (column ∈ columns) then None
      else Some (<[table := {[column]} ∪ columns]> db)
  | None => None
  end.

(** [db.delete_column]: the table must exist and must have the column. *)
Definition delete_column (table column : string)
  (db : gmap string (gset string)) : option (gmap string (gset string)) :=
  match db !! table with
  | Some columns =>
      if decide (column ∈ columns)
      then Some (<[table := columns ∖ {[column]}]> db)
      else None
  | None => None
  end.

(** One statement for every table of a list, in order, stopping at the
    first error. *)
Fixpoint for_each
  (statement : string -> gmap string (gset string)
               -> option (gmap string (gset string)))
  (tables : list string) (db : gmap string (gset string))
  : option (gmap string (gset string)) :=
  match tables with
  | [] => Some db
  | table :: rest => statement table db ≫= for_each statement rest
  end.

Definition forwards_tables : list string :=
  ["tumblelog_instagram"; "tumblelog_gist"; "tumblelog_tweet";
   "tumblelog_vimeo"; "tumblelog_link"; "tumblelog_rdio";
   "tumblelog_article"; "tumblelog_code"; "tumblelog_soundcloud";
   "tumblelog_file"; "tumblelog_flickr"; "tumblelog_textsnippet";
   "tumblelog_image"; "tumblelog_youtube"].

Definition backwards_tables : list string :=
  ["tumblelog_instagram"; "tumblelog_gist"; "tumblelog_tweet";
   "tumblelog_vimeo"; "tumblelog_link"; "tumblelog_rdio";
   "tumblelog_article"; "tumblelog_code"; "tumblelog_soundcloud";
   "tumblelog_file"; "tumblelog_flickr"; "tumblelog_textsnippet";
   "tumblelog_image"; "tumblelog_youtube"].

Definition forwards (db : gmap string (gset string))
  : option (gmap string (gset string)) :=
  for_each (fun table => add_column table "meta_description")
    forwards_tables db.

Definition backwards (db : gmap string (gset string))
  : option (gmap string (gset string)) :=
  for_each (fun table => delete_column table "meta_description")
    backwards_tables db.

End Migration.

(** A database with the fourteen tables of the post types, each with its
    key and its title. *)
Definition db_before : gmap string (gset string) :=
  list_to_map ((fun table => (table, {["id"; "title"]}))
                 <$> Migration.forwards_tables).

(** The same database once every table has the column. *)
Definition db_after : gmap string (gset string) :=
  list_to_map ((fun table => (table, {["id"; "title"; "meta_description"]}))
                 <$> Migration.forwards_tables).

(** ** Sample data *)

(** A clock that starts at [t0] and advances by one microsecond at every
    reading. *)
Definition clock_from (t0 : Z) : nat -> Z := fun n => t0 + Z.of_nat n.

Definition twitter_response : gmap string pyval :=
  list_to_map [("version", VStr "1.0"); ("provider_name", VStr "Twitter");
               ("provider_url", VStr "https://twitter.com/")].

(** A provider that answers, and one that is down.  The clock of both
    starts 90000 seconds after the epoch. *)
Definition env_up : Env :=
  mkEnv (clock_from 90000000000) (fun _ => Response twitter_response)
    (fun _ _ => []).

Definition env_down : Env :=
  mkEnv (clock_from 90000000000) (fun _ => HTTPFailure 503) (fun _ _ => []).

(** A saved link whose metadata was fetched at the epoch. *)
Definition link_fields : gmap string pyval :=
  list_to_map
    [("id", VInt 1); ("title", VStr "Hello"); ("slug", VStr "hello");
     ("author", VNone); ("status", VStr "d"); ("meta_description", VNone);
     ("date_added", VDateTime 0); ("date_modified", VDateTime 0);
     ("date_published", VNone); ("caption", VNone);
     ("version", VStr "0.9"); ("provider_name", VStr "Twttr");
     ("provider_url", VStr "http://twttr.com/");
     ("cache_age", VInt 86400); ("date_updated", VDateTime 0)].

Definition link_loaded : State := mkState link_fields [] [] 0 [].

(** The same link with a cache age of one hour, and two clocks: one that
    reads 3599 seconds past the last fetch, one that reads 3601. *)
Definition link_hourly : State :=
  mkState (<["cache_age" := VInt 3600]> link_fields) [] [] 0 [].

Definition env_at (t : Z) : Env :=
  mkEnv (clock_from t) (fun _ => Response twitter_response) (fun _ _ => []).

(** A saved link that was never fetched. *)
Definition link_never_fetched : State :=
  mkState (<["date_updated" := VNone]> link_fields) [] [] 0 [].

(** A post type whose table has an entry of two characters, instances
    that have the attribute, and a provider that sends the key. *)
Definition LinkWithZone : PostType :=
  mkPostType "link" (base_oembed_map ++ [MName "tz"]) (fun _ v => v).

Definition zone_loaded : State :=
  mkState (<["tz" := VNone]> link_fields) [] [] 0 [].

Definition zone_response : gmap string pyval :=
  <["tz" := VStr "UTC"]> twitter_response.

(** A post type without remote metadata, a saved article and its identity
    record, and two unsaved items that reuse its slug: another article and
    a link. *)
Definition Article : PostType := mkPostType "article" [] (fun _ v => v).

Definition Link : PostType := mkPostType "link" [] (fun _ v => v).

Definition article_fields (id : pyval) (slug : string) : gmap string pyval :=
  list_to_map
    [("id", id); ("title", VStr "Hello"); ("slug", VStr slug);
     ("author", VNone); ("status", VStr "d"); ("meta_description", VNone);
     ("date_added", VNone); ("date_modified", VNone);
     ("date_published", VNone)].

Definition hello_post : Post :=
  mkPost 1 "article" 1 VNone (VStr "hello") (VStr "d") (VDateTime 0)
    (VDateTime 0) VNone.

Definition hello_row : Row :=
  mkRow "article" 1
    (<["date_added" := VDateTime 0]> (<["date_modified" := VDateTime 0]>
       (article_fields (VInt 1) "hello"))).

(** The first article of the scenario, before its first save. *)
Definition first_article : State :=
  mkState (article_fields VNone "hello") [] [] 0 [].

(** A second item with the slug of the first, in a store that holds the
    first. *)
Definition second_item : State :=
  mkState (article_fields VNone "hello") [hello_post] [hello_row] 0 [].

(** The first article once its row is written, and the values of a later
    edit that renames it. *)
Definition saved_article : State :=
  mkState (row_fields hello_row) [] [hello_row] 2 [EvItemWrite "article" 1].

Definition renamed_fields : gmap string pyval :=
  <["slug" := VStr "hello-again"]> (<["status" := VStr "p"]>
     (row_fields hello_row)).

(** ** Vocabulary of the statements *)

(** Two states that differ at most in the attributes of [self]. *)
Definition same_world (s s' : State) : Prop :=
  posts s' = posts s /\ rows s' = rows s /\ ticks s' = ticks s /\
  trace s' = trace s.

(** The attributes [hasattr] sees are the same in both states. *)
Definition same_attrs (s s' : State) : Prop :=
  forall name, is_Some (self s' !! name) <-> is_Some (self s !! name).

(** The state after one reading of the clock. *)
Definition tick (s : State) : State :=
  mkState (self s) (posts s) (rows s) (S (ticks s)) (trace s).

(** The state in which the response of a refresh is mapped: the clock has
    been read into [date_updated] and the request has been sent. *)
Definition refreshing (env : Env) (s : State) : State :=
  mkState (<["date_updated" := VDateTime (clock env (ticks s))]> (self s))
    (posts s) (rows s) (S (ticks s)) (trace s ++ [EvFetch]).

(** The entries of a mapping table that apply to [self]: those whose local
    attribute exists. *)
Definition applies (s : State) (m : mapping) : bool :=
  bool_decide (is_Some (self s !! snd (BaseOembedPostType.unpack m))).

(** What the store guarantees of the identity records: primary keys and
    slugs are unique, and at most one record points at an item. *)
Definition store_wf (ps : list Post) : Prop :=
  NoDup (post_pk <$> ps) /\ NoDup (post_slug <$> ps) /\
  NoDup ((fun p => (post_type p, object_id p)) <$> ps).

(** Some identity record carries the slug and does not point at the item
    [id] of the table. *)
Definition slug_conflict (table : string) (id slug : pyval) (ps : list Post)
  : Prop :=
  Exists (fun p => post_slug p = slug /\ ~ refers_to table id p) ps.

(** The state in which the attributes of the item have been changed to
    [fields]. *)
Definition with_self (fields : gmap string pyval) (s : State) : State :=
  mkState fields (posts s) (rows s) (ticks s) (trace s).

(** The identity record carries the item's status, slug, author, date of
    creation and date of publication. *)
Definition denormalised (fields : gmap string pyval) (p : Post) : Prop :=
  fields !! "status" = Some (post_status p) /\
  fields !! "date_added" = Some (post_date_added p) /\
  fields !! "date_published" = Some (post_date_published p) /\
  fields !! "slug" = Some (post_slug p) /\
  fields !! "author" = Some (post_author p).

(** What one entry of the table does to the attributes when the response
    is [data]: an attribute that exists gets the cleaned value of the key,
    [None] for a key that the response lacks. *)
Definition assign (cls : PostType) (data : gmap string pyval) (m : mapping)
  (attrs : gmap string pyval) : gmap string pyval :=
  let '(prop, field) := BaseOembedPostType.unpack m in
  match attrs !! field with
  | Some _ =>
      <[field := oembed_clean_value cls field (default VNone (data !! prop))]>
        attrs
  | None => attrs
  end.

(** The attributes once every entry of the table has been applied, in the
    order of the table. *)
Definition assign_all (cls : PostType) (data : gmap string pyval)
  (l : list mapping) (attrs : gmap string pyval) : gmap string pyval :=
  foldl (fun acc m => assign cls data m acc) attrs l.

(** The entry applies to [self] and the response has its key, or it does
    not apply. *)
Definition entry_ready (s : State) (data : gmap string pyval) (m : mapping)
  : Prop :=
  is_Some (self s !! snd (BaseOembedPostType.unpack m)) ->
  is_Some (data !! fst (BaseOembedPostType.unpack m)).

#[global] Instance entry_ready_dec s data m : Decision (entry_ready s data m).
Proof. unfold entry_ready. apply _. Defined.

(** The seconds fit a [timedelta]: at most 999999999 days either way. *)
Definition timedelta_in_range (seconds : Z) : Prop :=
  -999999999 <= seconds / 86400 <= 999999999.

(** The instant is a [datetime]: from the first microsecond of the year 1
    to the last of the year 9999. *)
Definition datetime_in_range (t : Z) : Prop :=
  -62135596800000000 <= t <= 253402300799999999.

(** The attributes that [Model.save] stamps. *)
Definition stamped : list string := ["id"; "date_added"; "date_modified"].

(** The local attributes that a table names. *)
Definition fields_of (l : list mapping) : list string :=
  (fun m => snd (BaseOembedPostType.unpack m)) <$> l.

(** An unsaved link that was never fetched. *)
Definition link_unsaved : State :=
  mkState (<["id" := VNone]> (<["date_updated" := VNone]> link_fields))
    [] [] 0 [].

(** A saved photo, and a response of the provider for it. *)
Definition photo_loaded : State :=
  mkState (<["width" := VNone]> (<["height" := VNone]>
             (<["image_url" := VNone]> link_fields))) [] [] 0 [].

Definition photo_response : gmap string pyval :=
  <["width" := VInt 640]> (<["height" := VInt 480]>
    (<["url" := VStr "http://i/1.jpg"]> twitter_response)).

(** A saved video with cached metadata, a provider that answers for
    photos, and a photo that was never saved. *)
Definition video_cached : State :=
  mkState (<["width" := VInt 640]> (<["height" := VInt 480]>
             (<["embed" := VStr "<iframe/>"]> link_fields))) [] [] 0 [].

Definition env_photo : Env :=
  mkEnv (clock_from 90000000000) (fun _ => Response photo_response)
    (fun _ _ => []).

Definition photo_new : State :=
  mkState (<["id" := VNone]> (<["date_updated" := VNone]> (self photo_loaded)))
    [] [] 0 [].

(** * Properties *)

Open Scope list_scope.

(** ** Running the monad *)

Lemma run_bind {A B} (m : M A) (f : A -> M B) (s : State) :
  (m ≫= f) s =
  match m s with
  | (Ok a, s') => f a s'
  | (Raise e, s') => (Raise e, s')
  end.
Proof. reflexivity. Qed.

(** Unfold the plumbing of the monad. *)
Ltac run_monad :=
  unfold mbind, M_bind, mret, M_ret, raise, get_state, emit, setattr,
    set_posts, set_rows, datetime_now; simpl.

Lemma same_world_refl s : same_world s s.
Proof. by repeat split. Qed.

Lemma same_world_trans s1 s2 s3 :
  same_world s1 s2 -> same_world s2 s3 -> same_world s1 s3.
Proof.
  intros (?&?&?&?) (?&?&?&?). repeat split; congruence.
Qed.

(** ** The field mapping *)

Section mapping.
Import BaseOembedPostType.
Context (cls : PostType).

(** One entry: skipped when [self] lacks the attribute, a [TypeError]
    when the response is [None], an assignment of the cleaned value of
    the key otherwise, [None] standing for a key that the response
    lacks. *)
Lemma map_entry_run response m s :
  map_entry cls response m s =
  let '(prop, field) := unpack m in
  match self s !! field with
  | None => (Ok tt, s)
  | Some _ =>
      match response with
      | None => (Raise TypeError, s)
      | Some data =>
          setattr field
            (oembed_clean_value cls field (default VNone (data !! prop))) s
      end
  end.
Proof.
  unfold map_entry. destruct (unpack m) as [prop field].
  rewrite run_bind. unfold hasattr.
  destruct (self s !! field) as [old|] eqn:E.
  - rewrite bool_decide_true by eauto.
    destruct response as [data|]; [|done].
    by rewrite run_bind.
  - rewrite bool_decide_false; [done|]. by intros [? ?].
Qed.

Lemma map_entry_ok response m s s' :
  map_entry cls response m s = (Ok tt, s') ->
  same_world s s' /\ same_attrs s s'.
Proof.
  rewrite map_entry_run. destruct (unpack m) as [prop field].
  destruct (self s !! field) as [old|] eqn:E.
  - destruct response as [data|]; [|done].
    unfold setattr. intros [= <-]. split; [by repeat split|].
    intros name. simpl. destruct (decide (field = name)) as [->|Hne].
    + rewrite lookup_insert_eq, E. split; eauto.
    + by rewrite lookup_insert_ne.
  - intros [= <-]. split; [apply same_world_refl|done].
Qed.

Lemma map_entry_raise response m s e s' :
  map_entry cls response m s = (Raise e, s') -> s' = s.
Proof.
  rewrite map_entry_run. destruct (unpack m) as [prop field].
  destruct (self s !! field); [|done].
  destruct response as [data|]; [done|by intros [= _ <-]].
Qed.

Lemma map_entries_cons response m l s :
  map_entries cls response (m :: l) s =
  match map_entry cls response m s with
  | (Ok _, s') => map_entries cls response l s'
  | (Raise e, s') => (Raise e, s')
  end.
Proof. reflexivity. Qed.

(** The loop touches nothing but the attributes of [self], and creates no
    attribute. *)
Lemma map_entries_world response l s :
  same_world s (snd (map_entries cls response l s)) /\
  same_attrs s (snd (map_entries cls response l s)).
Proof.
  revert s. induction l as [|m l IH]; intros s.
  - split; [apply same_world_refl|done].
  - rewrite map_entries_cons.
    destruct (map_entry cls response m s) as [[[]|e] s1] eqn:E.
    + apply map_entry_ok in E as [Hw Ha].
      destruct (IH s1) as [Hw' Ha']. split.
      * eapply same_world_trans; eauto.
      * intros name. etrans; [apply Ha'|apply Ha].
    + apply map_entry_raise in E as ->. simpl.
      split; [apply same_world_refl|done].
Qed.

(** After a suppressed HTTP error the response is [None]: the first entry
    whose attribute exists raises [TypeError], before anything is set. *)
Lemma map_entries_None l s :
  map_entries cls None l s =
  if existsb (applies s) l
  then (Raise TypeError, s) else (Ok tt, s).
Proof.
  induction l as [|m l IH]; [done|].
  rewrite map_entries_cons, map_entry_run. simpl. unfold applies at 1.
  destruct (unpack m) as [prop field]. simpl.
  destruct (self s !! field) as [old|] eqn:E.
  - by rewrite bool_decide_true by eauto.
  - rewrite bool_decide_false by (by intros [? ?]). apply IH.
Qed.

End mapping.

(** ** What a mapping leaves on the instance *)

Section assignment.
Import BaseOembedPostType.
Context (cls : PostType) (data : gmap string pyval).

Lemma assign_attrs m attrs name :
  is_Some (assign cls data m attrs !! name) <-> is_Some (attrs !! name).
Proof.
  unfold assign. destruct (unpack m) as [prop field].
  destruct (attrs !! field) as [old|] eqn:E; [|done].
  destruct (decide (field = name)) as [<-|Hne].
  - rewrite lookup_insert_eq, E. split; eauto.
  - by rewrite lookup_insert_ne.
Qed.

Lemma assign_other m attrs name :
  snd (unpack m) <> name -> assign cls data m attrs !! name = attrs !! name.
Proof.
  unfold assign. destruct (unpack m) as [prop field]. simpl. intros Hne.
  destruct (attrs !! field); [|done]. by rewrite lookup_insert_ne.
Qed.

Lemma assign_all_cons m l attrs :
  assign_all cls data (m :: l) attrs
  = assign_all cls data l (assign cls data m attrs).
Proof. reflexivity. Qed.

Lemma assign_all_attrs l attrs name :
  is_Some (assign_all cls data l attrs !! name) <-> is_Some (attrs !! name).
Proof.
  revert attrs. induction l as [|m l IH]; intros attrs; [done|].
  rewrite assign_all_cons, IH. apply assign_attrs.
Qed.

(** An attribute that the table does not name keeps its value. *)
Lemma assign_all_other l attrs name :
  name ∉ fields_of l -> assign_all cls data l attrs !! name = attrs !! name.
Proof.
  revert attrs. induction l as [|m l IH]; intros attrs Hname; [done|].
  unfold fields_of in Hname. rewrite fmap_cons in Hname.
  apply not_elem_of_cons in Hname as [Hne Hname].
  rewrite assign_all_cons, IH by done. by apply assign_other.
Qed.

(** With a table that names no attribute twice, each entry that applies
    decides the value of its attribute: the cleaned value of its key,
    [None] for a key that the response lacks. *)
Lemma assign_all_lookup l attrs m :
  NoDup (fields_of l) -> m ∈ l ->
  is_Some (attrs !! snd (unpack m)) ->
  assign_all cls data l attrs !! snd (unpack m)
  = Some (oembed_clean_value cls (snd (unpack m))
            (default VNone (data !! fst (unpack m)))).
Proof.
  revert attrs. induction l as [|m0 l IH]; intros attrs Hnd Hin Hattr.
  - by apply elem_of_nil in Hin.
  - unfold fields_of in Hnd. rewrite fmap_cons in Hnd.
    apply NoDup_cons in Hnd as [Hfresh Hnd].
    rewrite assign_all_cons. apply elem_of_cons in Hin as [<-|Hin].
    + rewrite assign_all_other by done.
      unfold assign. destruct (unpack m) as [prop field]. simpl in *.
      destruct Hattr as [old ->]. apply lookup_insert_eq.
    + apply IH; try done. by apply assign_attrs.
Qed.

(** Two instances with the same attributes, equal wherever the table
    does not assign, are mapped to the same instance. *)
Lemma assign_all_agree l a b :
  (forall name, is_Some (a !! name) <-> is_Some (b !! name)) ->
  (forall name, name ∉ fields_of l -> a !! name = b !! name) ->
  assign_all cls data l a = assign_all cls data l b.
Proof.
  revert a b. induction l as [|m l IH]; intros a b Hdom Hagree.
  - apply map_eq. intros name. apply Hagree, not_elem_of_nil.
  - rewrite !assign_all_cons. apply IH.
    + intros name. by rewrite !assign_attrs.
    + intros name Hrest.
      destruct (decide (snd (unpack m) = name)) as [Hname|Hname].
      * unfold assign. destruct (unpack m) as [prop field].
        simpl in Hname. subst field.
        destruct (a !! name) as [x|] eqn:Ea, (b !! name) as [y|] eqn:Eb.
        -- by rewrite !lookup_insert_eq.
        -- exfalso. assert (is_Some (b !! name)) as [? ?];
             [apply Hdom; eauto|congruence].
        -- exfalso. assert (is_Some (a !! name)) as [? ?];
             [apply Hdom; eauto|congruence].
        -- congruence.
      * rewrite !assign_other by done. apply Hagree.
        unfold fields_of. rewrite fmap_cons.
        by apply not_elem_of_cons.
Qed.

Lemma assign_all_idempotent l attrs :
  assign_all cls data l (assign_all cls data l attrs)
  = assign_all cls data l attrs.
Proof.
  apply assign_all_agree.
  - intros name. apply assign_all_attrs.
  - intros name Hname. by apply assign_all_other.
Qed.

Lemma map_entry_Some m s :
  map_entry cls (Some data) m s
  = (Ok tt, with_self (assign cls data m (self s)) s).
Proof.
  rewrite map_entry_run. unfold assign. destruct (unpack m) as [prop field].
  destruct (self s !! field); [done|by destruct s].
Qed.

(** With a response the loop always runs to its end, and leaves the
    attributes that [assign_all] computes. *)
Lemma map_entries_Some l s :
  map_entries cls (Some data) l s
  = (Ok tt, with_self (assign_all cls data l (self s)) s).
Proof.
  revert s. induction l as [|m l IH]; intros s; [by destruct s|].
  by rewrite map_entries_cons, map_entry_Some, IH.
Qed.

End assignment.

(** ** The refresh and the freshness check *)

Section refresh.
Import BaseOembedPostType.
Context (env : Env) (cls : PostType).

Lemma oembed_update_run s :
  oembed_update env cls s =
  match embed env (self (refreshing env s)) with
  | Response data => oembed_map_values cls (Some data) (refreshing env s)
  | HTTPFailure _ => oembed_map_values cls None (refreshing env s)
  | OtherFailure => (Raise RemoteError, refreshing env s)
  end.
Proof.
  unfold oembed_update, oembed_retrieve.
  unfold refreshing. run_monad.
  by destruct (embed env _).
Qed.

(** Whatever the provider answers, a refresh sends exactly one request and
    leaves the tables alone. *)
Lemma oembed_update_world s :
  same_world (refreshing env s) (snd (oembed_update env cls s)).
Proof.
  rewrite oembed_update_run. destruct (embed env _).
  - apply map_entries_world.
  - apply map_entries_world.
  - apply same_world_refl.
Qed.

Lemma oembed_update_trace s :
  trace (snd (oembed_update env cls s)) = trace s ++ [EvFetch].
Proof. by destruct (oembed_update_world s) as (_&_&_&->). Qed.

(** The freshness check of a persisted item whose fields are well typed. *)
Lemma init_run s pk seconds t :
  self s !! "id" = Some pk -> truthy pk = true ->
  self s !! "cache_age" = Some (VInt seconds) ->
  self s !! "date_updated" = Some (VDateTime t) ->
  __init__ env cls s =
  if Z.ltb (seconds * 1000000 + t) (clock env (ticks s))
  then oembed_update env cls (tick s) else (Ok tt, tick s).
Proof.
  intros Hid Hpk Hage Hupd. unfold __init__.
  rewrite run_bind. unfold getattr at 1. rewrite Hid, Hpk.
  rewrite run_bind. unfold getattr at 1. rewrite Hage.
  rewrite run_bind. unfold getattr at 1. rewrite Hupd.
  unfold expiry_of. run_monad. fold (tick s).
  by destruct (Z.ltb _ _).
Qed.

End refresh.

(** ** Claims about the freshness check *)

Section freshness.
Import BaseOembedPostType.

(** C3: a persisted item with [cache_age = 3600] and [date_updated = T]
    that is loaded when the clock reads [T + 3599 s] is returned without a
    refresh: nothing happens but the reading of the clock.  Loaded when
    the clock reads [T + 3601 s], the constructor runs the refresh before
    it returns, and the request is sent. *)
Theorem C3_freshness_boundary env cls s pk T :
  self s !! "id" = Some (VInt pk) -> 0 < pk ->
  self s !! "cache_age" = Some (VInt 3600) ->
  self s !! "date_updated" = Some (VDateTime T) ->
  (clock env (ticks s) = T + 3599 * 1000000 ->
   __init__ env cls s = (Ok tt, tick s)) /\
  (clock env (ticks s) = T + 3601 * 1000000 ->
   __init__ env cls s = oembed_update env cls (tick s) /\
   trace (snd (__init__ env cls s)) = trace s ++ [EvFetch]).
Proof.
  intros Hid Hpk Hage Hupd.
  assert (Htrue : truthy (VInt pk) = true).
  { simpl. apply negb_true_iff, Z.eqb_neq. lia. }
  rewrite (init_run env cls s _ _ _ Hid Htrue Hage Hupd).
  split; intros ->.
  - replace (Z.ltb _ _) with false; [done|]. symmetry. apply Z.ltb_ge. lia.
  - replace (Z.ltb _ _) with true by (symmetry; apply Z.ltb_lt; lia).
    split; [done|]. by rewrite oembed_update_trace.
Qed.

Lemma C3_freshness_boundary_witness :
  __init__ (env_at (3599 * 1000000)) BaseOembedLink link_hourly
    = (Ok tt, tick link_hourly) /\
  trace (snd (__init__ (env_at (3601 * 1000000)) BaseOembedLink link_hourly))
    = [EvFetch].
Proof.
  split.
  - apply (proj1 (C3_freshness_boundary (env_at (3599 * 1000000))
                    BaseOembedLink link_hourly 1 0
                    eq_refl eq_refl eq_refl eq_refl)).
    reflexivity.
  - apply (proj2 (C3_freshness_boundary (env_at (3601 * 1000000))
                    BaseOembedLink link_hourly 1 0
                    eq_refl eq_refl eq_refl eq_refl)).
    reflexivity.
Defined.

(** C10: loading a persisted item whose [date_updated] is [None] raises
    while the expiry is computed: no refresh is attempted and the state is
    as before.  When [cache_age] is an integer the error is the
    [TypeError] of adding a [timedelta] to [None]. *)
Theorem C10_null_date_updated_fails env cls s pk :
  self s !! "id" = Some pk -> truthy pk = true ->
  self s !! "date_updated" = Some VNone ->
  exists e, __init__ env cls s = (Raise e, s) /\
            (forall n, self s !! "cache_age" = Some (VInt n) -> e = TypeError).
Proof.
  intros Hid Hpk Hupd. unfold __init__.
  rewrite run_bind. unfold getattr at 1. rewrite Hid, Hpk.
  rewrite run_bind. unfold getattr at 1.
  destruct (self s !! "cache_age") as [age|] eqn:Hage.
  - rewrite run_bind. unfold getattr at 1. rewrite Hupd.
    rewrite run_bind. exists TypeError. split; [|done].
    by destruct age.
  - eexists. split; [done|]. intros n Hn. discriminate.
Qed.

Lemma C10_null_date_updated_fails_witness :
  exists e, __init__ env_up BaseOembedLink link_never_fetched
              = (Raise e, link_never_fetched) /\
            (forall n, self link_never_fetched !! "cache_age" = Some (VInt n)
                       -> e = TypeError).
Proof.
  apply (C10_null_date_updated_fails env_up BaseOembedLink link_never_fetched
           (VInt 1)); reflexivity.
Defined.

End freshness.

(** ** Claims about the refresh *)

Section refresh_claims.
Import BaseOembedPostType.

(** A refresh whose request fails with an HTTP error: the error is
    swallowed by [oembed_retrieve], which returns [None]; the mapping
    then subscripts [None] for the first entry that applies and raises
    [TypeError].  The fields keep their values and [date_updated] has
    advanced, but the failure does reach the caller. *)
Lemma oembed_update_http_error env cls s code :
  embed env (self (refreshing env s)) = HTTPFailure code ->
  oembed_update env cls s =
  if existsb (applies (refreshing env s)) (oembed_map cls)
  then (Raise TypeError, refreshing env s) else (Ok tt, refreshing env s).
Proof.
  intros Hdown. rewrite oembed_update_run, Hdown.
  apply map_entries_None.
Qed.

(** C1, at the failing input: a saved link, fetched at the epoch with a
    cache age of 86400 seconds, is loaded 90000 seconds later while the
    provider answers 503.  The constructor raises [TypeError]; at that
    point [date_updated] holds the time of the refresh and every other
    attribute is as it was. *)
Theorem C1_transport_error_reaches_caller :
  __init__ env_down BaseOembedLink link_loaded =
  (Raise TypeError,
   mkState (<["date_updated" := VDateTime 90000000001]> link_fields)
     [] [] 2 [EvFetch]).
Proof.
  rewrite (init_run env_down BaseOembedLink link_loaded (VInt 1) 86400 0)
    by reflexivity.
  change (Z.ltb _ _) with true. cbv iota.
  by rewrite (oembed_update_http_error _ _ _ 503).
Qed.

(** A single name unpacks into itself twice unless it has two
    characters. *)
Lemma unpack_name name :
  String.length name <> 2%nat -> unpack (MName name) = (name, name).
Proof.
  destruct name as [|a [|b [|c rest]]]; simpl; try done.
Qed.

Lemma unpack_pair prop field : unpack (MPair prop field) = (prop, field).
Proof. reflexivity. Qed.

(** C8, at the failing input: the table has the single name ["tz"], the
    instance has an attribute ["tz"] and the response a key ["tz"], yet
    the mapping leaves the attribute as it was: the entry was unpacked
    into the remote key ["t"] and the attribute ["z"], which the instance
    lacks. *)
Theorem C8_two_character_name_is_split :
  unpack (MName "tz") = ("t", "z") /\
  fst (oembed_map_values LinkWithZone (Some zone_response) zone_loaded)
    = Ok tt /\
  self (snd (oembed_map_values LinkWithZone (Some zone_response) zone_loaded))
    !! "tz" = Some VNone /\
  zone_response !! "tz" = Some (VStr "UTC").
Proof. repeat split; reflexivity. Qed.

(** C7 as stated fails: the table of [BaseOembedVideo] names the remote
    keys ["width"], ["height"] and ["html"], the response has none of
    them, and both the load of the stale video and its save succeed.
    Subscripting the response with a key that it lacks gives [None],
    which replaces the cached width. *)
Lemma C7_counterexample :
  (exists m, m ∈ oembed_map BaseOembedVideo /\
             twitter_response !! fst (unpack m) = None) /\
  fst (__init__ env_up BaseOembedVideo video_cached) = Ok tt /\
  fst (save env_up BaseOembedVideo video_cached) = Ok tt /\
  self video_cached !! "width" = Some (VInt 640) /\
  self (snd (__init__ env_up BaseOembedVideo video_cached)) !! "width"
    = Some VNone.
Proof.
  split; [|repeat split; vm_compute; reflexivity].
  exists (MName "width"). split; [|reflexivity].
  apply list_elem_of_In. vm_compute. tauto.
Qed.

(** C7, amended: an entry that names a key absent from the response
    raises no error.  When the provider answers, the refresh succeeds and
    leaves the attributes that applying the entries gives, both in a save,
    which then goes on to the inherited save, and in the load of a stale
    item; with a table that names no attribute twice, the attribute of
    such an entry, if the instance has it, holds the cleaned [None]. *)
Theorem C7_missing_key_assigns_None env cls s data m :
  m ∈ oembed_map cls ->
  data !! fst (unpack m) = None ->
  (embed env (self (refreshing env s)) = Response data ->
   save env cls s
   = BasePostType.save env cls
       (with_self (assign_all cls data (oembed_map cls)
                     (self (refreshing env s))) (refreshing env s)) /\
   (NoDup (fields_of (oembed_map cls)) ->
    is_Some (self s !! snd (unpack m)) ->
    assign_all cls data (oembed_map cls) (self (refreshing env s))
      !! snd (unpack m)
    = Some (oembed_clean_value cls (snd (unpack m)) VNone))) /\
  (forall pk seconds t,
     self s !! "id" = Some pk -> truthy pk = true ->
     self s !! "cache_age" = Some (VInt seconds) ->
     self s !! "date_updated" = Some (VDateTime t) ->
     seconds * 1000000 + t < clock env (ticks s) ->
     embed env (self (refreshing env (tick s))) = Response data ->
     __init__ env cls s
     = (Ok tt,
        with_self (assign_all cls data (oembed_map cls)
                     (self (refreshing env (tick s))))
          (refreshing env (tick s))) /\
     (NoDup (fields_of (oembed_map cls)) ->
      is_Some (self s !! snd (unpack m)) ->
      assign_all cls data (oembed_map cls) (self (refreshing env (tick s)))
        !! snd (unpack m)
      = Some (oembed_clean_value cls (snd (unpack m)) VNone))).
Proof.
  intros Hin Hkey.
  assert (Hupd : forall s0, self s0 = self s ->
            embed env (self (refreshing env s0)) = Response data ->
            oembed_update env cls s0
            = (Ok tt,
               with_self (assign_all cls data (oembed_map cls)
                            (self (refreshing env s0))) (refreshing env s0))).
  { intros s0 Hself Hresp. rewrite oembed_update_run, Hresp.
    apply map_entries_Some. }
  assert (Hval : forall s0, self s0 = self s ->
            NoDup (fields_of (oembed_map cls)) ->
            is_Some (self s !! snd (unpack m)) ->
            assign_all cls data (oembed_map cls) (self (refreshing env s0))
              !! snd (unpack m)
            = Some (oembed_clean_value cls (snd (unpack m)) VNone)).
  { intros s0 Hself Hnd [v Hv].
    rewrite (assign_all_lookup cls data _ _ m Hnd Hin).
    - by rewrite Hkey.
    - simpl. rewrite Hself.
      destruct (decide ("date_updated" = snd (unpack m))) as [<-|Hne].
      + rewrite lookup_insert_eq. eauto.
      + rewrite lookup_insert_ne by done. eauto. }
  split.
  - intros Hresp. split; [|by apply Hval].
    unfold save. rewrite run_bind. by rewrite (Hupd s eq_refl Hresp).
  - intros pk seconds t Hid Hpk Hage Hdate Hstale Hresp.
    split; [|by apply Hval].
    rewrite (init_run env cls s _ _ _ Hid Hpk Hage Hdate).
    replace (Z.ltb _ _) with true by (symmetry; apply Z.ltb_lt; lia).
    by apply Hupd.
Qed.

Lemma C7_missing_key_assigns_None_witness :
  fst (save env_up BaseOembedVideo video_cached) = Ok tt /\
  fst (__init__ env_up BaseOembedVideo video_cached) = Ok tt /\
  assign_all BaseOembedVideo twitter_response (oembed_map BaseOembedVideo)
    (self (refreshing env_up (tick video_cached)))
    !! snd (unpack (MName "width"))
  = Some (oembed_clean_value BaseOembedVideo (snd (unpack (MName "width")))
            VNone).
Proof.
  destruct (C7_missing_key_assigns_None env_up BaseOembedVideo video_cached
              twitter_response (MName "width")) as [Hsave Hload].
  - apply list_elem_of_In. vm_compute. tauto.
  - reflexivity.
  - destruct (Hsave eq_refl) as [Hrun _].
    destruct (Hload (VInt 1) 86400 0 eq_refl eq_refl eq_refl eq_refl
                eq_refl eq_refl) as [Hinit Hwidth].
    split; [|split].
    + rewrite Hrun. vm_compute. reflexivity.
    + by rewrite Hinit.
    + apply Hwidth.
      * apply (bool_decide_unpack _). vm_compute. exact I.
      * by eexists.
Defined.

End refresh_claims.

(** ** The trace of a save *)

Section traces.
Context (env : Env) (cls : PostType).

(** [Model.save] either fails without a write or writes the row of the
    item, once. *)
Lemma model_save_trace s :
  match model_save env cls s with
  | (Ok _, s') =>
      exists pk, trace s' = trace s ++ [EvItemWrite (class_name cls) pk]
  | (Raise _, s') => trace s' = trace s
  end.
Proof.
  unfold model_save, getattr. run_monad.
  repeat case_match; simplify_eq/=; eauto.
Qed.

Lemma post_save_trace p s :
  exists rest, trace (snd (post_save env p s)) = trace s ++ rest.
Proof.
  unfold post_save. run_monad.
  repeat case_match; simplify_eq/=; eauto using app_nil_r.
Qed.

Lemma get_or_create_trace table oid s :
  exists rest, trace (snd (get_or_create env table oid s)) = trace s ++ rest.
Proof.
  unfold get_or_create. run_monad.
  repeat case_match; simplify_eq/=; eauto using app_nil_r.
Qed.

Lemma upsert_post_trace s :
  exists rest,
    trace (snd (BasePostType.upsert_post env cls s)) = trace s ++ rest.
Proof.
  unfold BasePostType.upsert_post.
  rewrite run_bind. unfold getattr at 1.
  destruct (self s !! "id") as [id|]; [|by exists []; rewrite app_nil_r].
  rewrite run_bind.
  destruct id as [|n|?|?]; try (by exists []; rewrite app_nil_r).
  destruct (get_or_create_trace (class_name cls) n s) as [rest1 Hrest1].
  destruct (get_or_create env (class_name cls) n s)
    as [[[post created]|e] s1]; simpl in Hrest1; [|eauto].
  unfold getattr. run_monad.
  repeat (case_match; simplify_eq/=; eauto).
  match goal with
  | |- context [post_save env ?q s1] =>
      destruct (post_save_trace q s1) as [rest2 Hrest2]
  end.
  exists (rest1 ++ rest2). by rewrite Hrest2, Hrest1, app_assoc.
Qed.

End traces.

(** ** Validation of the slug *)

(** A filter over a list without duplicate keys keeps at most one element
    when all the elements it keeps have the same key. *)
Lemma filter_key_unique {A B} (f : A -> B) (P : A -> Prop)
  `{!forall x, Decision (P x)} (l : list A) :
  NoDup (f <$> l) -> (forall x y, P x -> P y -> f x = f y) ->
  filter P l = [] \/ exists p, filter P l = [p].
Proof.
  intros Hnd Hkey. induction l as [|x l IH]; [by left|].
  rewrite fmap_cons in Hnd. apply NoDup_cons in Hnd as [Hx Hnd].
  destruct (decide (P x)) as [HPx|HPx].
  - right. exists x. rewrite filter_cons_True by done. f_equal.
    destruct (filter P l) as [|y k] eqn:E; [done|]. exfalso. apply Hx.
    assert (Hy : y ∈ filter P l) by (rewrite E; left).
    apply list_elem_of_filter in Hy as [HPy Hy].
    rewrite (Hkey x y HPx HPy). by apply list_elem_of_fmap_2.
  - rewrite filter_cons_False by done. by apply IH.
Qed.

Lemma elem_of_same_key {A B} (f : A -> B) (l : list A) x y :
  NoDup (f <$> l) -> x ∈ l -> y ∈ l -> f x = f y -> x = y.
Proof.
  intros Hnd Hx Hy Hf. induction l as [|z l IH]; [by apply elem_of_nil in Hx|].
  rewrite fmap_cons in Hnd. apply NoDup_cons in Hnd as [Hz Hnd].
  apply elem_of_cons in Hx as [->|Hx]; apply elem_of_cons in Hy as [->|Hy].
  - done.
  - exfalso. apply Hz. rewrite Hf. by apply list_elem_of_fmap_2.
  - exfalso. apply Hz. rewrite <- Hf. by apply list_elem_of_fmap_2.
  - by apply IH.
Qed.

Section validation.
Import BasePostType.
Context (env : Env) (cls : PostType).

(** What [clean_fields] computes on a well-formed store once the
    field-level checks have passed. *)
Lemma clean_fields_run exclude s slug id :
  store_wf (posts s) ->
  field_errors env (self s) exclude = [] ->
  self s !! "slug" = Some slug -> self s !! "id" = Some id ->
  clean_fields env cls exclude s =
  if decide (slug_conflict (class_name cls) id slug (posts s))
  then (Raise (ValidationError SLUG_EXISTS), s) else (Ok tt, s).
Proof.
  intros (Hpk & Hslug & Hpair) Hfields Hs Hid.
  unfold clean_fields, super_clean_fields, try_except_else, objects_get,
    post_all, getattr.
  run_monad. rewrite Hfields, Hs.
  destruct (filter_key_unique post_slug (fun p => post_slug p = slug)
              (posts s) Hslug) as [E|[matching E]]; [congruence| |];
    rewrite E; simpl.
  - (* no record carries the slug *)
    rewrite decide_False; [done|].
    intros (p & Hp & Hps & _)%Exists_exists.
    assert (p ∈ filter (fun p => post_slug p = slug) (posts s)) as Hin
      by by apply list_elem_of_filter.
    rewrite E in Hin. by apply elem_of_nil in Hin.
  - assert (Hm : matching ∈ filter (fun p => post_slug p = slug) (posts s))
      by (rewrite E; left).
    apply list_elem_of_filter in Hm as [Hms Hm].
    rewrite Hid.
    destruct (filter (refers_to (class_name cls) id) (posts s))
      as [|own others] eqn:Eown; simpl.
    + (* the item has no record: the record found is another item's *)
      rewrite decide_True; [done|]. apply Exists_exists.
      exists matching. split; [done|]. split; [done|]. intros Href.
      assert (matching ∈ filter (refers_to (class_name cls) id) (posts s))
        as Hin by by apply list_elem_of_filter.
      rewrite Eown in Hin. by apply elem_of_nil in Hin.
    + assert (Ho : own ∈ filter (refers_to (class_name cls) id) (posts s))
        by (rewrite Eown; left).
      apply list_elem_of_filter in Ho as [Horef Ho].
      destruct (decide (post_pk matching = post_pk own)) as [Heq|Hne].
      * (* the record found is the item's own *)
        assert (matching = own) as ->
          by by apply (elem_of_same_key post_pk (posts s)).
        rewrite decide_False; [done|].
        intros (p & Hp & Hps & Hnot)%Exists_exists. apply Hnot.
        assert (p = own) as ->; [|done].
        apply (elem_of_same_key post_slug (posts s)); by try congruence.
      * rewrite decide_True; [done|]. apply Exists_exists.
        exists matching. split; [done|]. split; [done|]. intros Href.
        apply Hne. f_equal.
        apply (elem_of_same_key (fun p => (post_type p, object_id p))
                 (posts s)); try done.
        destruct Href as [? ?], Horef as [? ?]. f_equal; congruence.
Qed.






End validation.

Section validation_claims.
Import BasePostType.

(** C4: on a well-formed store, and once the field-level checks have
    passed, [clean_fields] fails with the duplicate-slug error exactly
    when some identity record carries the slug of the item and is not the
    item's own, and succeeds otherwise.  In particular, for an item that
    no identity record points at yet, validation succeeds exactly when no
    record carries the slug. *)
Theorem C4_validate_iff_foreign_slug env cls exclude s slug id :
  store_wf (posts s) ->
  field_errors env (self s) exclude = [] ->
  self s !! "slug" = Some slug -> self s !! "id" = Some id ->
  (fst (clean_fields env cls exclude s) = Raise (ValidationError SLUG_EXISTS)
   <-> slug_conflict (class_name cls) id slug (posts s)) /\
  (fst (clean_fields env cls exclude s) = Ok tt
   <-> ~ slug_conflict (class_name cls) id slug (posts s)) /\
  (Forall (fun p => ~ refers_to (class_name cls) id p) (posts s) ->
   (fst (clean_fields env cls exclude s) = Ok tt
    <-> Forall (fun p => post_slug p <> slug) (posts s))).
Proof.
  intros Hwf Hfields Hslug Hid.
  rewrite (clean_fields_run env cls exclude s slug id) by done.
  assert (Hiff : fst (if decide (slug_conflict (class_name cls) id slug
                                   (posts s))
                      then (Raise (ValidationError SLUG_EXISTS), s)
                      else (Ok tt, s)) = Ok tt
                 <-> ~ slug_conflict (class_name cls) id slug (posts s)).
  { destruct (decide _); simpl; split; try done. }
  split; [|split; [done|]].
  - destruct (decide _); simpl; split; try done.
  - intros Hnone. rewrite Hiff. unfold slug_conflict.
    rewrite Exists_exists, Forall_forall. rewrite Forall_forall in Hnone.
    split.
    + intros H p Hp Heq. apply H. exists p.
      split; [done|]. split; [done|]. by apply Hnone.
    + intros H (p & Hp & Heq & _). by apply (H p).
Qed.

Lemma C4_validate_iff_foreign_slug_witness :
  fst (clean_fields env_up Article [] second_item)
    = Raise (ValidationError SLUG_EXISTS) /\
  fst (clean_fields env_up Article [] first_article) = Ok tt.
Proof.
  split.
  - apply (proj1 (C4_validate_iff_foreign_slug env_up Article [] second_item
                    (VStr "hello") VNone
                    ltac:(vm_compute; repeat split; apply NoDup_singleton)
                    eq_refl eq_refl eq_refl)).
    apply Exists_cons_hd. split; [reflexivity|]. by intros [_ ?].
  - apply (proj1 (proj2 (C4_validate_iff_foreign_slug env_up Article []
                           first_article (VStr "hello") VNone
                           ltac:(repeat split; apply NoDup_nil_2)
                           eq_refl eq_refl eq_refl))).
    by intros ?%Exists_nil.
Defined.




End validation_claims.

(** ** The identity record of an item *)

Lemma fresh_pk_bound (used : list Z) x : x ∈ used -> x < fresh_pk used.
Proof.
  unfold fresh_pk. induction used as [|y used IH]; intros Hx.
  - by apply elem_of_nil in Hx.
  - simpl. apply elem_of_cons in Hx as [->|Hx]; [lia|].
    specialize (IH Hx). lia.
Qed.

Lemma fresh_pk_fresh (used : list Z) : fresh_pk used ∉ used.
Proof. intros H%fresh_pk_bound. lia. Qed.

Lemma replace_post_pks q ps : post_pk <$> replace_post q ps = post_pk <$> ps.
Proof.
  unfold replace_post. induction ps as [|x ps IH]; [done|].
  rewrite !fmap_cons, IH. f_equal. by destruct (decide _).
Qed.

(** Replacing a row commutes with a filter that cannot tell the old row
    from the new. *)
Lemma filter_replace_post (P : Post -> Prop) `{!forall p, Decision (P p)}
  q ps :
  (forall x, x ∈ ps -> post_pk x = post_pk q -> (P x <-> P q)) ->
  filter P (replace_post q ps) = replace_post q (filter P ps).
Proof.
  unfold replace_post. induction ps as [|x ps IH]; intros Hsame; [done|].
  rewrite fmap_cons.
  assert (IH' := IH (fun y Hy => Hsame y (list_elem_of_further _ _ _ Hy))).
  destruct (decide (post_pk x = post_pk q)) as [Heq|Hne].
  - destruct (decide (P x)) as [HP|HP].
    + rewrite (filter_cons_True P x) by done.
      rewrite filter_cons_True by (apply (Hsame x); [left|done|done]).
      rewrite fmap_cons, decide_True by done. by rewrite IH'.
    + rewrite (filter_cons_False P x) by done.
      rewrite filter_cons_False; [done|].
      intros HPq. apply HP. apply (Hsame x); [left|done|done].
  - destruct (decide (P x)) as [HP|HP].
    + rewrite !filter_cons_True by done.
      rewrite fmap_cons, decide_False by done. by rewrite IH'.
    + by rewrite !filter_cons_False by done.
Qed.

Section identity_record.
Import BasePostType.
Context (env : Env).

(** [get_or_create] returns the one record that points at the item, and
    afterwards that record is in the table, alone for its item. *)
Lemma get_or_create_ok table oid s p created s' :
  NoDup (post_pk <$> posts s) ->
  get_or_create env table oid s = (Ok (p, created), s') ->
  NoDup (post_pk <$> posts s') /\
  filter (refers_to table (VInt oid)) (posts s') = [p] /\
  self s' = self s /\ rows s' = rows s /\
  if decide (filter (refers_to table (VInt oid)) (posts s) = [])
  then ticks s' = S (S (ticks s)) /\ length (posts s') = S (length (posts s))
  else ticks s' = ticks s /\ posts s' = posts s.
Proof.
  intros Hnd. unfold get_or_create. run_monad.
  destruct (filter (refers_to table (VInt oid)) (posts s))
    as [|p0 [|p1 rest]] eqn:E; simpl; [| |done].
  - destruct (decide _); [done|]. intros [= <- <- <-]. simpl.
    split; [|split; [|split; [done|split; [done|]]]].
    + rewrite fmap_app. apply NoDup_app. split; [done|]. split.
      * intros x Hx [->|[]%elem_of_nil]%elem_of_cons.
        by apply fresh_pk_fresh in Hx.
      * apply NoDup_singleton.
    + rewrite filter_app, E. simpl. by rewrite filter_cons_True.
    + split; [done|]. rewrite length_app. simpl. lia.
  - intros [= <- <- <-]. done.
Qed.

(** Saving new field values into the record of an item keeps it the one
    record of the item, stamped with the time of this save. *)
Lemma post_save_ok table id q p0 s s' :
  NoDup (post_pk <$> posts s) ->
  filter (refers_to table id) (posts s) = [p0] ->
  post_pk q = post_pk p0 -> post_type q = post_type p0 ->
  object_id q = object_id p0 ->
  post_save env q s = (Ok tt, s') ->
  NoDup (post_pk <$> posts s') /\
  filter (refers_to table id) (posts s')
    = [set_post_date_modified (VDateTime (clock env (ticks s))) q] /\
  self s' = self s /\ rows s' = rows s /\ ticks s' = S (ticks s) /\
  length (posts s') = length (posts s).
Proof.
  intros Hnd Hone Hpk Htype Hoid. unfold post_save. run_monad.
  set (q' := set_post_date_modified (VDateTime (clock env (ticks s))) q).
  assert (Hin : p0 ∈ posts s /\ refers_to table id p0).
  { assert (p0 ∈ filter (refers_to table id) (posts s)) as Hp
      by (rewrite Hone; left).
    apply list_elem_of_filter in Hp. tauto. }
  destruct Hin as [Hin Href].
  destruct (decide (slug_taken _ _ _)); [done|].
  destruct (decide (has_post_pk _ _)) as [_|Hno].
  - intros [= <-]. simpl. rewrite replace_post_pks.
    split; [done|].
    split; [|by unfold replace_post; rewrite length_fmap].
    rewrite filter_replace_post.
    + rewrite Hone. unfold replace_post. simpl.
      by rewrite decide_True by (symmetry; exact Hpk).
    + intros x Hx Hxpk.
      assert (x = p0) as ->.
      { apply (elem_of_same_key post_pk (posts s)); try done.
        simpl in Hxpk. congruence. }
      unfold refers_to. simpl. by rewrite Htype, Hoid.
  - exfalso. apply Hno. apply Exists_exists. exists p0. split; [done|].
    simpl. congruence.
Qed.

End identity_record.

Section upsert.
Import BasePostType.
Context (env : Env) (cls : PostType).

(** The second half of [save], when it succeeds, leaves exactly one
    identity record for the item; the record carries the item's values,
    except that its date of modification is the time of the record's own
    save. *)
Lemma upsert_post_ok s s' n :
  NoDup (post_pk <$> posts s) ->
  self s !! "id" = Some (VInt n) ->
  upsert_post env cls s = (Ok tt, s') ->
  NoDup (post_pk <$> posts s') /\ self s' = self s /\ rows s' = rows s /\
  (exists p,
     filter (refers_to (class_name cls) (VInt n)) (posts s') = [p] /\
     denormalised (self s) p /\
     VDateTime (clock env (pred (ticks s'))) = post_date_modified p) /\
  if decide (filter (refers_to (class_name cls) (VInt n)) (posts s) = [])
  then ticks s' = S (S (S (ticks s))) /\
       length (posts s') = S (length (posts s))
  else ticks s' = S (ticks s) /\ length (posts s') = length (posts s).
Proof.
  intros Hnd Hid. unfold upsert_post.
  rewrite run_bind. unfold getattr at 1. rewrite Hid.
  rewrite run_bind.
  destruct (get_or_create env (class_name cls) n s)
    as [[[post created]|e] s1] eqn:Hgoc; simpl; [|intros [=]].
  apply get_or_create_ok in Hgoc as (Hnd1 & Hone & Hself & Hrows & Hnew);
    [|done].
  unfold getattr. run_monad.
  repeat match goal with
  | |- context [self s1 !! ?name] =>
      let E := fresh "Hattr" in
      destruct (self s1 !! name) eqn:E; simpl; [|intros [=]]
  end.
  intros Hsave.
  eapply post_save_ok in Hsave
    as (Hnd2 & Hone2 & Hself2 & Hrows2 & Hticks & Hlen);
    [|done|exact Hone|done..].
  split; [done|]. split; [congruence|]. split; [congruence|]. split.
  - eexists. split; [exact Hone2|]. split.
    + rewrite <- Hself. by repeat split.
    + by rewrite Hticks.
  - destruct (decide _); destruct Hnew as [Ht Hp]; split; congruence.
Qed.

Lemma model_save_ok s s' :
  model_save env cls s = (Ok tt, s') ->
  posts s' = posts s /\ (0 < ticks s')%nat /\
  (exists n, self s' !! "id" = Some (VInt n)) /\
  self s' !! "date_modified" = Some (VDateTime (clock env (pred (ticks s')))).
Proof.
  unfold model_save, getattr. run_monad.
  repeat (case_match; simplify_eq/=; try done);
    intros [= <-]; simpl; (split; [done|]); (split; [lia|]);
    (split; [eexists; apply lookup_insert_eq|]);
    by rewrite lookup_insert_ne, lookup_insert_eq.
Qed.

(** A save that succeeds leaves exactly one identity record for the item.
    The record carries the item's status, slug, author, date of creation
    and date of publication; its date of modification is the reading of
    the clock in the record's own save, which comes after the reading
    that the item holds. *)
Lemma save_ok_record s s' :
  NoDup (post_pk <$> posts s) ->
  save env cls s = (Ok tt, s') ->
  exists n p t,
    self s' !! "id" = Some (VInt n) /\
    filter (refers_to (class_name cls) (VInt n)) (posts s') = [p] /\
    denormalised (self s') p /\
    self s' !! "date_modified" = Some (VDateTime (clock env t)) /\
    post_date_modified p = VDateTime (clock env (pred (ticks s'))) /\
    (t < pred (ticks s'))%nat.
Proof.
  intros Hnd. unfold save. rewrite run_bind.
  destruct (model_save env cls s) as [[[]|e] s1] eqn:Hsave; [|intros [=]].
  apply model_save_ok in Hsave as (Hposts & Hpos & [n Hid] & Hmod).
  intros Hup.
  apply upsert_post_ok with (n := n) in Hup
    as (_ & Hself & _ & (p & Hone & Hfields & Hstamp) & Hticks);
    [|by rewrite Hposts|done].
  exists n, p, (pred (ticks s1)). rewrite Hself.
  split; [done|]. split; [done|]. split; [done|]. split; [done|].
  split; [done|].
  destruct (decide _); destruct Hticks as [-> _]; simpl; lia.
Qed.

End upsert.

Section upsert_claims.
Import BasePostType.

(** C5, at the failing input: the first article of the scenario is saved
    while the clock advances.  The save succeeds and leaves one identity
    record, for the article, with its slug and the draft status; but the
    record's date of modification is the reading of the clock in the
    record's own save, not the date of modification of the article. *)
Theorem C5_record_date_modified_differs :
  fst (save env_up Article first_article) = Ok tt /\
  posts (snd (save env_up Article first_article))
    = [mkPost 1 "article" 1 VNone (VStr "hello") (VStr "d")
         (VDateTime 90000000000) (VDateTime 90000000004) VNone] /\
  self (snd (save env_up Article first_article)) !! "date_modified"
    = Some (VDateTime 90000000001).
Proof. repeat split; vm_compute; reflexivity. Qed.

(** C6, at the failing input: the upsert is run twice for the saved
    article, the second time after a rename.  Both calls succeed and one
    identity record is left, with the slug and the status of the second
    call; but its date of modification is the reading of the clock in
    the record's own save, not the date of modification that the second
    call assigns. *)
Theorem C6_second_call_date_modified_lost :
  fst (upsert_post env_up Article saved_article) = Ok tt /\
  fst (upsert_post env_up Article
         (with_self renamed_fields
            (snd (upsert_post env_up Article saved_article)))) = Ok tt /\
  renamed_fields !! "date_modified" = Some (VDateTime 0) /\
  posts (snd (upsert_post env_up Article
                (with_self renamed_fields
                   (snd (upsert_post env_up Article saved_article)))))
  = [mkPost 1 "article" 1 VNone (VStr "hello-again") (VStr "p")
       (VDateTime 0) (VDateTime 90000000005) VNone].
Proof. repeat split; vm_compute; reflexivity. Qed.

(** The upsert of the identity record, performed twice in a row for the
    same item, the second time with the values [fields], leaves exactly
    one identity record for the pair of the item's type and key: the
    second call adds no row.  That record carries the status, slug,
    author, date of creation and date of publication of the second call,
    and the time of the second save as its date of modification. *)
Theorem upsert_twice_one_record env cls s s1 s2 n fields :
  NoDup (post_pk <$> posts s) ->
  self s !! "id" = Some (VInt n) ->
  fields !! "id" = Some (VInt n) ->
  upsert_post env cls s = (Ok tt, s1) ->
  upsert_post env cls (with_self fields s1) = (Ok tt, s2) ->
  length (posts s2) = length (posts s1) /\
  exists p,
    filter (refers_to (class_name cls) (VInt n)) (posts s2) = [p] /\
    denormalised fields p /\
    post_date_modified p = VDateTime (clock env (ticks s1)).
Proof.
  intros Hnd Hid Hid2 Hfirst Hsecond.
  apply upsert_post_ok with (n := n) in Hfirst
    as (Hnd1 & _ & _ & (p1 & Hone1 & _) & _); [|done..].
  apply upsert_post_ok with (n := n) in Hsecond
    as (_ & _ & _ & (p & Hone & Hfields & Hstamp) & Hsame); [|done..].
  simpl in Hsame. rewrite Hone1 in Hsame.
  destruct (decide _) as [|_]; [done|]. destruct Hsame as [Hticks Hlen].
  split; [done|]. exists p. split; [done|]. split; [done|].
  by rewrite <- Hstamp, Hticks.
Qed.

Lemma upsert_twice_one_record_witness :
  let s1 := snd (upsert_post env_up Article saved_article) in
  let s2 := snd (upsert_post env_up Article (with_self renamed_fields s1)) in
  length (posts s2) = length (posts s1) /\
  exists p,
    filter (refers_to (class_name Article) (VInt 1)) (posts s2) = [p] /\
    denormalised renamed_fields p /\
    post_date_modified p = VDateTime (clock env_up (ticks s1)).
Proof.
  apply (upsert_twice_one_record env_up Article saved_article _ _ 1
           renamed_fields).
  - apply NoDup_nil_2.
  - reflexivity.
  - reflexivity.
  - vm_compute. reflexivity.
  - vm_compute. reflexivity.
Defined.

End upsert_claims.

(** ** The store stays well formed *)

(** In a table without duplicate keys, replacing the row of [p0] changes
    that row and no other. *)
Lemma replace_post_split q p0 ps :
  NoDup (post_pk <$> ps) -> p0 ∈ ps -> post_pk q = post_pk p0 ->
  exists l1 l2, ps = l1 ++ p0 :: l2 /\ replace_post q ps = l1 ++ q :: l2.
Proof.
  intros Hnd Hin Hpk.
  apply list_elem_of_split in Hin as (l1 & l2 & ->).
  exists l1, l2. split; [done|].
  rewrite fmap_app, fmap_cons in Hnd.
  apply NoDup_app in Hnd as (_ & Hl1 & Hnd).
  apply NoDup_cons in Hnd as [Hl2 _].
  assert (Hkeep : forall l, post_pk p0 ∉ post_pk <$> l -> replace_post q l = l).
  { intros l Hl. unfold replace_post. induction l as [|x l IH]; [done|].
    rewrite fmap_cons in *. apply not_elem_of_cons in Hl as [Hx Hl].
    rewrite decide_False by congruence. by rewrite IH. }
  unfold replace_post in *. rewrite fmap_app, fmap_cons.
  rewrite decide_True by done. rewrite Hkeep, Hkeep; [done|done|].
  intros Hp. by apply (Hl1 (post_pk p0)); [|left].
Qed.

Section store_invariant.
Import BasePostType.
Context (env : Env) (cls : PostType).

Lemma model_save_posts s : posts (snd (model_save env cls s)) = posts s.
Proof.
  unfold model_save, getattr. run_monad.
  repeat (case_match; simplify_eq/=; try done).
Qed.

Lemma get_or_create_wf table oid s :
  store_wf (posts s) ->
  store_wf (posts (snd (get_or_create env table oid s))).
Proof.
  intros (Hpk & Hslug & Hpair). unfold get_or_create. run_monad.
  destruct (filter (refers_to table (VInt oid)) (posts s))
    as [|p0 [|p1 rest]] eqn:E; simpl; [|done..].
  destruct (decide _) as [|Hfree]; [done|]. simpl.
  unfold store_wf. rewrite !fmap_app. simpl.
  split; [|split]; apply NoDup_app; (split; [done|]);
    (split; [|apply NoDup_singleton]);
    intros x Hx [->|[]%elem_of_nil]%elem_of_cons.
  - by apply fresh_pk_fresh in Hx.
  - apply list_elem_of_fmap in Hx as (q & Hq & Hin).
    apply Hfree, Exists_exists. exists q. split; [done|]. split; [|done].
    simpl. intros Heq. apply (fresh_pk_fresh (post_pk <$> posts s)).
    rewrite <- Heq. by apply list_elem_of_fmap_2.
  - apply list_elem_of_fmap in Hx as (q & [= Hty Hoid] & Hin).
    assert (q ∈ filter (refers_to table (VInt oid)) (posts s)) as Hq.
    { apply list_elem_of_filter. split; [|done]. split; congruence. }
    rewrite E in Hq. by apply elem_of_nil in Hq.
Qed.

Lemma post_save_wf q p0 s :
  store_wf (posts s) -> p0 ∈ posts s ->
  post_pk q = post_pk p0 -> post_type q = post_type p0 ->
  object_id q = object_id p0 ->
  store_wf (posts (snd (post_save env q s))).
Proof.
  intros (Hpk & Hslug & Hpair) Hin Heq Hty Hoid. unfold post_save. run_monad.
  set (q' := set_post_date_modified (VDateTime (clock env (ticks s))) q).
  destruct (decide (slug_taken _ _ _)) as [|Hfree]; [done|].
  destruct (decide (has_post_pk _ _)) as [_|Hno]; simpl.
  - destruct (replace_post_split q' p0 (posts s) Hpk Hin Heq)
      as (l1 & l2 & Hsplit & ->).
    rewrite Hsplit in Hpk, Hslug, Hpair, Hfree.
    unfold store_wf. rewrite !fmap_app, !fmap_cons in *. simpl.
    rewrite Heq, Hty, Hoid. split; [done|]. split; [|done].
    assert (Hnew : forall x, x ∈ l1 ++ l2 -> post_slug x <> post_slug q).
    { intros x Hx Hsame. apply Hfree, Exists_exists. exists x.
      split.
      { rewrite elem_of_app, elem_of_cons.
        apply elem_of_app in Hx as [?|?]; tauto. }
      split; [|done]. simpl. rewrite Heq.
      intros Hxpk.
      apply NoDup_app in Hpk as (Hl1 & Hdisj & Hl2).
      apply NoDup_cons in Hl2 as [Hp0 _].
      apply elem_of_app in Hx as [Hx|Hx].
      - apply (Hdisj (post_pk x)); [by apply list_elem_of_fmap_2|].
        rewrite Hxpk. left.
      - apply Hp0. rewrite <- Hxpk. by apply list_elem_of_fmap_2. }
    apply NoDup_app in Hslug as (Hl1 & Hdisj & Hl2).
    apply NoDup_cons in Hl2 as [_ Hl2].
    apply NoDup_app. split; [done|]. split.
    + intros y Hy [->|Hy2]%elem_of_cons.
      * apply list_elem_of_fmap in Hy as (x & Hx & Hxin).
        apply (Hnew x); [apply elem_of_app; by left|done].
      * apply (Hdisj y Hy). by right.
    + apply NoDup_cons. split; [|done].
      intros (x & Hx & Hxin)%list_elem_of_fmap.
      apply (Hnew x); [apply elem_of_app; by right|done].
  - exfalso. apply Hno, Exists_exists. exists p0. split; [done|].
    simpl. congruence.
Qed.

Lemma upsert_post_wf s :
  store_wf (posts s) -> store_wf (posts (snd (upsert_post env cls s))).
Proof.
  intros Hwf. unfold upsert_post.
  rewrite run_bind. unfold getattr at 1.
  destruct (self s !! "id") as [id|]; [|done].
  rewrite run_bind. destruct id as [|n| |]; try done.
  pose proof (get_or_create_wf (class_name cls) n s Hwf) as Hwf1.
  destruct (get_or_create env (class_name cls) n s)
    as [[[post created]|e] s1] eqn:Hgoc; [|done].
  apply get_or_create_ok in Hgoc as (_ & Hone & _); [|apply Hwf].
  assert (Hin : post ∈ posts s1).
  { assert (post ∈ filter (refers_to (class_name cls) (VInt n)) (posts s1))
      as Hp by (rewrite Hone; left).
    by apply list_elem_of_filter in Hp as [_ ?]. }
  simpl in Hwf1. unfold getattr. run_monad.
  repeat match goal with
  | |- context [self s1 !! ?name] =>
      destruct (self s1 !! name); simpl; [|done]
  end.
  by apply post_save_wf with (p0 := post).
Qed.

(** A save, whether it succeeds or fails, leaves the identity records
    with unique keys, unique slugs and at most one record for an item. *)
Lemma save_store_wf s :
  store_wf (posts s) -> store_wf (posts (snd (save env cls s))).
Proof.
  intros Hwf. unfold save. rewrite run_bind.
  pose proof (model_save_posts s) as Hposts.
  destruct (model_save env cls s) as [[[]|e] s1]; simpl in Hposts.
  - apply upsert_post_wf. by rewrite Hposts.
  - simpl. by rewrite Hposts.
Qed.

End store_invariant.

(** * Further properties of the refresh *)

Section constructor.
Import BaseOembedPostType.

(** The constructor of an instance that is not persisted (its key is
    [None] or zero) does nothing: it does not read the clock, it sends no
    request, and it does not look at [date_updated], which may be
    [None]. *)
Theorem init_unsaved_is_inert env cls s pk :
  self s !! "id" = Some pk -> truthy pk = false ->
  __init__ env cls s = (Ok tt, s).
Proof.
  intros Hid Hpk. unfold __init__.
  rewrite run_bind. unfold getattr. by rewrite Hid, Hpk.
Qed.

Lemma init_unsaved_is_inert_witness :
  __init__ env_down BaseOembedLink link_unsaved = (Ok tt, link_unsaved).
Proof.
  apply (init_unsaved_is_inert env_down BaseOembedLink link_unsaved VNone);
    reflexivity.
Defined.

(** A persisted item whose [cache_age] fits a [timedelta] and whose
    expiry is a [datetime] is refreshed on load exactly when the clock is
    strictly past [date_updated] plus [cache_age] seconds: at the instant
    of expiry itself, and before, the constructor only reads the clock;
    after it, the constructor is the refresh. *)
Theorem init_refreshes_iff_expired env cls s pk seconds t :
  self s !! "id" = Some pk -> truthy pk = true ->
  self s !! "cache_age" = Some (VInt seconds) ->
  self s !! "date_updated" = Some (VDateTime t) ->
  timedelta_in_range seconds ->
  datetime_in_range (t + seconds * 1000000) ->
  (clock env (ticks s) <= t + seconds * 1000000 ->
   __init__ env cls s = (Ok tt, tick s)) /\
  (t + seconds * 1000000 < clock env (ticks s) ->
   __init__ env cls s = oembed_update env cls (tick s)).
Proof.
  intros Hid Hpk Hage Hupd _ _.
  rewrite (init_run env cls s _ _ _ Hid Hpk Hage Hupd).
  split; intros Hnow.
  - replace (Z.ltb _ _) with false; [done|]. symmetry. apply Z.ltb_ge. lia.
  - replace (Z.ltb _ _) with true; [done|]. symmetry. apply Z.ltb_lt. lia.
Qed.

Lemma init_refreshes_iff_expired_witness :
  __init__ (env_at (3600 * 1000000)) BaseOembedLink link_hourly
    = (Ok tt, tick link_hourly) /\
  __init__ (env_at (3600 * 1000000 + 1)) BaseOembedLink link_hourly
    = oembed_update (env_at (3600 * 1000000 + 1)) BaseOembedLink
        (tick link_hourly).
Proof.
  split.
  - apply (proj1 (init_refreshes_iff_expired (env_at (3600 * 1000000))
                    BaseOembedLink link_hourly (VInt 1) 3600 0
                    eq_refl eq_refl eq_refl eq_refl
                    ltac:(unfold timedelta_in_range;
                            change (3600 / 86400) with 0; lia)
                    ltac:(unfold datetime_in_range; lia))).
    vm_compute. discriminate.
  - apply (proj2 (init_refreshes_iff_expired (env_at (3600 * 1000000 + 1))
                    BaseOembedLink link_hourly (VInt 1) 3600 0
                    eq_refl eq_refl eq_refl eq_refl
                    ltac:(unfold timedelta_in_range;
                            change (3600 / 86400) with 0; lia)
                    ltac:(unfold datetime_in_range; lia))).
    reflexivity.
Defined.

End constructor.

Section refresh_errors.
Import BaseOembedPostType.
Context (env : Env) (cls : PostType).

Lemma map_entries_raise response l s e s' :
  map_entries cls response l s = (Raise e, s') ->
  response = None /\ e = TypeError.
Proof.
  destruct response as [data|]; [by rewrite map_entries_Some|].
  rewrite map_entries_None. by destruct (existsb _ _); intros [= <- _].
Qed.

(** A refresh never fails with the HTTP error of the provider: that error
    is always swallowed.  It fails only with [TypeError], after a
    swallowed HTTP error, or with the provider's other errors; when the
    provider answers, the refresh succeeds. *)
Theorem oembed_update_errors s e :
  fst (oembed_update env cls s) = Raise e ->
  (e = TypeError /\ exists code,
      embed env (self (refreshing env s)) = HTTPFailure code) \/
  (e = RemoteError /\ embed env (self (refreshing env s)) = OtherFailure).
Proof.
  rewrite oembed_update_run.
  destruct (embed env (self (refreshing env s))) as [data|code|] eqn:E.
  - unfold oembed_map_values. by rewrite map_entries_Some.
  - unfold oembed_map_values.
    destruct (map_entries cls None (oembed_map cls) (refreshing env s))
      as [[[]|e0] s1] eqn:Hrun; [done|].
    intros [= ->]. left.
    apply map_entries_raise in Hrun as [_ ->].
    split; [done|]. by exists code.
  - intros [= <-]. by right.
Qed.

End refresh_errors.

Lemma oembed_update_errors_witness :
  (TypeError = TypeError /\ exists code,
      embed env_down (self (refreshing env_down link_loaded))
        = HTTPFailure code) \/
  (TypeError = RemoteError /\
   embed env_down (self (refreshing env_down link_loaded)) = OtherFailure).
Proof.
  apply (oembed_update_errors env_down BaseOembedLink link_loaded TypeError).
  reflexivity.
Defined.

Section mapping_properties.
Import BaseOembedPostType.

Lemma map_entries_frame cls response l s name :
  name ∉ fields_of l ->
  self (snd (map_entries cls response l s)) !! name = self s !! name.
Proof.
  revert s. induction l as [|m l IH]; intros s Hname; [done|].
  unfold fields_of in Hname. rewrite fmap_cons in Hname.
  apply not_elem_of_cons in Hname as [Hne Hname].
  rewrite map_entries_cons.
  destruct (map_entry cls response m s) as [[[]|e] s1] eqn:E.
  - rewrite IH by done. rewrite map_entry_run in E.
    destruct (unpack m) as [prop field]. simpl in Hne.
    destruct (self s !! field); [|by injection E as <-].
    destruct response as [data|]; [|done].
    injection E as <-. simpl. by rewrite lookup_insert_ne.
  - by apply map_entry_raise in E as ->.
Qed.

(** Mapping a response never fails, whatever keys the response has: it
    leaves the attributes that applying the entries one after the other
    gives, and changes nothing else. *)
Theorem oembed_map_values_total cls data s :
  oembed_map_values cls (Some data) s
  = (Ok tt, with_self (assign_all cls data (oembed_map cls) (self s)) s).
Proof. apply map_entries_Some. Qed.

(** Mapping a response, whatever the outcome, touches neither the store,
    the clock nor the trace, creates and removes no attribute, and leaves
    every attribute that the table does not name as it was. *)
Theorem oembed_map_values_frame cls response s :
  same_world s (snd (oembed_map_values cls response s)) /\
  same_attrs s (snd (oembed_map_values cls response s)) /\
  forall name, name ∉ fields_of (oembed_map cls) ->
    self (snd (oembed_map_values cls response s)) !! name = self s !! name.
Proof.
  unfold oembed_map_values.
  destruct (map_entries_world cls response (oembed_map cls) s) as [Hw Ha].
  split; [done|]. split; [done|]. intros name. apply map_entries_frame.
Qed.

(** With a table that names no attribute twice, a mapping leaves on
    every attribute that an entry names and the instance has the cleaned
    value of the entry's key, [None] standing for a key that the response
    lacks. *)
Theorem oembed_map_values_assigns cls data s s' m :
  NoDup (fields_of (oembed_map cls)) ->
  oembed_map_values cls (Some data) s = (Ok tt, s') ->
  m ∈ oembed_map cls ->
  is_Some (self s !! snd (unpack m)) ->
  self s' !! snd (unpack m)
  = Some (oembed_clean_value cls (snd (unpack m))
            (default VNone (data !! fst (unpack m)))).
Proof.
  intros Hnd Hrun Hin Hattr.
  unfold oembed_map_values in Hrun. rewrite map_entries_Some in Hrun.
  injection Hrun as <-. simpl. by apply assign_all_lookup.
Qed.

Lemma oembed_map_values_assigns_witness :
  self (snd (oembed_map_values BaseOembedPhoto (Some photo_response)
               photo_loaded)) !! snd (unpack (MPair "url" "image_url"))
  = Some (oembed_clean_value BaseOembedPhoto
            (snd (unpack (MPair "url" "image_url")))
            (default VNone
               (photo_response !! fst (unpack (MPair "url" "image_url"))))).
Proof.
  apply (oembed_map_values_assigns BaseOembedPhoto photo_response
           photo_loaded _ (MPair "url" "image_url")).
  - apply (bool_decide_unpack _). vm_compute. exact I.
  - vm_compute. reflexivity.
  - apply list_elem_of_In. vm_compute. tauto.
  - by eexists.
Defined.

(** Mapping the same response a second time changes nothing. *)
Theorem oembed_map_values_idempotent cls data s s' :
  oembed_map_values cls (Some data) s = (Ok tt, s') ->
  oembed_map_values cls (Some data) s' = (Ok tt, s').
Proof.
  unfold oembed_map_values. rewrite !map_entries_Some.
  intros [= <-]. simpl. by rewrite assign_all_idempotent.
Qed.

Lemma oembed_map_values_idempotent_witness :
  oembed_map_values BaseOembedPhoto (Some photo_response)
    (snd (oembed_map_values BaseOembedPhoto (Some photo_response)
            photo_loaded))
  = (Ok tt,
     snd (oembed_map_values BaseOembedPhoto (Some photo_response)
            photo_loaded)).
Proof.
  apply (oembed_map_values_idempotent BaseOembedPhoto photo_response
           photo_loaded).
  vm_compute. reflexivity.
Defined.

End mapping_properties.

(** * Further properties of validation and save *)

Section base_properties.
Import BasePostType.
Context (env : Env) (cls : PostType).

Lemma clean_fields_state exclude s :
  snd (clean_fields env cls exclude s) = s.
Proof.
  unfold clean_fields, super_clean_fields, try_except_else, objects_get,
    post_all, first_of, getattr.
  run_monad. repeat (case_match; simplify_eq/=; try done).
Qed.

(** Validation only reads the store: whatever its outcome, it writes no
    row and no identity record, sends no request and does not read the
    clock. *)
Theorem clean_fields_reads_only exclude s :
  same_world s (snd (clean_fields env cls exclude s)).
Proof. rewrite clean_fields_state. apply same_world_refl. Qed.

Lemma has_row_replace table pk fields rs :
  has_row table pk rs -> has_row table pk (replace_row (mkRow table pk fields) rs).
Proof.
  unfold has_row, replace_row. rewrite !Exists_exists.
  intros (r & Hin & Ht & Hpk).
  exists (mkRow table pk fields). split; [|done].
  apply list_elem_of_fmap. exists r. split; [|done].
  by rewrite decide_True.
Qed.

(** After a successful [Model.save] the item has an integer key and its
    table has a row with that key. *)
Lemma model_save_ok_row s s' :
  model_save env cls s = (Ok tt, s') ->
  exists n, self s' !! "id" = Some (VInt n) /\
            has_row (class_name cls) n (rows s').
Proof.
  unfold model_save, getattr. run_monad.
  destruct (self s !! "id") as [id|]; [|done].
  destruct id as [|n| |]; simpl; try done;
    repeat (case_match; simplify_eq/=; try done);
    intros [= <-]; simpl; eexists; (split; [apply lookup_insert_eq|]);
    try (apply Exists_app; right; by apply Exists_cons_hd);
    apply has_row_replace;
    match goal with
    | H : bool_decide _ = false |- _ =>
        apply bool_decide_eq_false in H; by apply dec_stable in H
    end.
Qed.

(** Saving an item whose row exists rewrites that row: the table keeps
    its length and the item its key, whether the save succeeds or not. *)
Lemma model_save_update s n :
  self s !! "id" = Some (VInt n) ->
  has_row (class_name cls) n (rows s) ->
  length (rows (snd (model_save env cls s))) = length (rows s) /\
  self (snd (model_save env cls s)) !! "id" = Some (VInt n).
Proof.
  intros Hid Hrow. unfold model_save, getattr. run_monad.
  rewrite Hid. simpl.
  rewrite bool_decide_false by (by intros H; apply H).
  simpl.
  destruct (<["date_modified" := _]> (self s) !! "slug"); simpl.
  - destruct (decide _); simpl.
    + split; [done|]. by rewrite lookup_insert_ne.
    + split; [|apply lookup_insert_eq].
      unfold replace_row. apply length_fmap.
  - split; [done|]. by rewrite lookup_insert_ne.
Qed.

(** For an item that has its identity record, the second half of [save]
    rewrites that record: the table keeps its length, whether the save
    succeeds or not. *)
Lemma upsert_post_existing s n p :
  self s !! "id" = Some (VInt n) ->
  filter (refers_to (class_name cls) (VInt n)) (posts s) = [p] ->
  length (posts (snd (upsert_post env cls s))) = length (posts s).
Proof.
  intros Hid Hone. unfold upsert_post, get_or_create, post_save, getattr.
  run_monad. rewrite Hid. simpl. rewrite Hone. simpl.
  repeat match goal with
  | |- context [self s !! ?name] => destruct (self s !! name); simpl; [|done]
  end.
  destruct (decide (slug_taken _ _ _)); [done|].
  destruct (decide (has_post_pk _ _)) as [|Hno]; simpl.
  - unfold replace_post. apply length_fmap.
  - exfalso. apply Hno, Exists_exists. exists p. split; [|done].
    assert (p ∈ filter (refers_to (class_name cls) (VInt n)) (posts s)) as Hp
      by (rewrite Hone; left).
    by apply list_elem_of_filter in Hp as [_ ?].
Qed.

Lemma upsert_post_rows s : rows (snd (upsert_post env cls s)) = rows s.
Proof.
  unfold upsert_post, get_or_create, post_save, getattr. run_monad.
  repeat (case_match; simplify_eq/=; try done).
Qed.

(** Saving again an item that was saved, with whatever values it now
    holds under the same key, adds no row to its table and no identity
    record, whether the second save succeeds or not. *)
Theorem resave_adds_nothing s s1 fields :
  NoDup (post_pk <$> posts s) ->
  save env cls s = (Ok tt, s1) ->
  fields !! "id" = self s1 !! "id" ->
  length (rows (snd (save env cls (with_self fields s1)))) = length (rows s1)
  /\ length (posts (snd (save env cls (with_self fields s1))))
     = length (posts s1).
Proof.
  intros Hnd Hsave Hkey.
  assert (exists n p, self s1 !! "id" = Some (VInt n) /\
                      has_row (class_name cls) n (rows s1) /\
                      filter (refers_to (class_name cls) (VInt n)) (posts s1)
                      = [p]) as (n & p & Hid & Hrow & Hone).
  { revert Hsave. unfold save. rewrite run_bind.
    destruct (model_save env cls s) as [[[]|e] s0] eqn:Hms; [|done].
    pose proof (model_save_ok env cls _ _ Hms) as (Hposts & _).
    apply model_save_ok_row in Hms as (n & Hid & Hrow). intros Hup.
    apply upsert_post_ok with (n := n) in Hup
      as (_ & Hself & Hrows & (p & Hone & _) & _);
      [|by rewrite Hposts|done].
    exists n, p. by rewrite Hself, Hrows. }
  rewrite Hid in Hkey.
  unfold save. rewrite run_bind.
  destruct (model_save_update (with_self fields s1) n Hkey Hrow)
    as [Hlen Hid2].
  pose proof (model_save_posts env cls (with_self fields s1)) as Hposts.
  destruct (model_save env cls (with_self fields s1)) as [[[]|e] s2];
    simpl in *; [|split; congruence].
  rewrite upsert_post_rows. split; [done|].
  rewrite (upsert_post_existing s2 n p);
    [by rewrite Hposts|done|by rewrite Hposts].
Qed.

Lemma get_or_create_keeps table oid s q :
  q ∈ posts s -> q ∈ posts (snd (get_or_create env table oid s)).
Proof.
  intros Hq. unfold get_or_create. run_monad.
  repeat (case_match; simplify_eq/=; try done).
  apply elem_of_app. by left.
Qed.

Lemma post_save_keeps p0 q0 q s :
  NoDup (post_pk <$> posts s) -> p0 ∈ posts s -> post_pk q0 = post_pk p0 ->
  q ∈ posts s -> q <> p0 -> q ∈ posts (snd (post_save env q0 s)).
Proof.
  intros Hnd Hp0 Hpk Hq Hne. unfold post_save. run_monad.
  set (q' := set_post_date_modified (VDateTime (clock env (ticks s))) q0).
  destruct (decide (slug_taken _ _ _)); [done|].
  destruct (decide (has_post_pk _ _)); simpl.
  - destruct (replace_post_split q' p0 (posts s) Hnd Hp0 Hpk)
      as (l1 & l2 & Hsplit & ->).
    rewrite Hsplit in Hq. rewrite elem_of_app, elem_of_cons in *.
    destruct Hq as [?|[?|?]]; tauto.
  - apply elem_of_app. by left.
Qed.

Lemma upsert_post_self s : self (snd (upsert_post env cls s)) = self s.
Proof.
  unfold upsert_post, get_or_create, post_save, getattr. run_monad.
  repeat (case_match; simplify_eq/=; try done).
Qed.

Lemma upsert_post_keeps s id q :
  NoDup (post_pk <$> posts s) -> self s !! "id" = Some id ->
  q ∈ posts s -> ~ refers_to (class_name cls) id q ->
  q ∈ posts (snd (upsert_post env cls s)).
Proof.
  intros Hnd Hid Hq Hother. unfold upsert_post.
  rewrite run_bind. unfold getattr at 1. rewrite Hid.
  rewrite run_bind. destruct id as [|n| |]; try done.
  pose proof (get_or_create_keeps (class_name cls) n s q Hq) as Hkeep.
  destruct (get_or_create env (class_name cls) n s)
    as [[[post created]|e] s1] eqn:Hgoc; [|done].
  apply get_or_create_ok in Hgoc as (Hnd1 & Hone & _); [|done].
  assert (Hpost : post ∈ posts s1 /\ refers_to (class_name cls) (VInt n) post).
  { assert (post ∈ filter (refers_to (class_name cls) (VInt n)) (posts s1))
      as Hp by (rewrite Hone; left).
    apply list_elem_of_filter in Hp. tauto. }
  destruct Hpost as [Hin Href]. simpl in Hkeep.
  unfold getattr. run_monad.
  repeat match goal with
  | |- context [self s1 !! ?name] =>
      destruct (self s1 !! name); simpl; [|done]
  end.
  apply post_save_keeps with (p0 := post); try done.
  by intros ->.
Qed.

(** A save never alters or removes the identity record of another item:
    on a store with unique record keys, a record that does not point at
    the saved item is still there afterwards, whether the save succeeds
    or not. *)
Theorem save_keeps_other_records s id q :
  NoDup (post_pk <$> posts s) ->
  self (snd (save env cls s)) !! "id" = Some id ->
  q ∈ posts s -> ~ refers_to (class_name cls) id q ->
  q ∈ posts (snd (save env cls s)).
Proof.
  intros Hnd. unfold save. rewrite run_bind.
  pose proof (model_save_posts env cls s) as Hposts.
  destruct (model_save env cls s) as [[[]|e] s1]; simpl in Hposts.
  - rewrite upsert_post_self. intros Hid Hq Hother.
    apply upsert_post_keeps with (id := id); try done; by rewrite Hposts.
  - simpl. by rewrite Hposts.
Qed.

(** The address of an item that has no identity record is an
    [IndexError]; in particular an item that was never saved has no
    address. *)
Theorem get_absolute_url_unsaved {A} (post_url : Post -> M A) s id :
  self s !! "id" = Some id ->
  filter (refers_to (class_name cls) id) (posts s) = [] ->
  get_absolute_url post_url cls s = (Raise IndexError, s).
Proof.
  intros Hid Hnone. unfold get_absolute_url, post_all, getattr.
  run_monad. by rewrite Hid, Hnone.
Qed.

(** After a save that succeeds, the address of the item is the address
    of its one identity record. *)
Theorem get_absolute_url_saved {A} (post_url : Post -> M A) s s' :
  NoDup (post_pk <$> posts s) ->
  save env cls s = (Ok tt, s') ->
  exists n p,
    self s' !! "id" = Some (VInt n) /\
    filter (refers_to (class_name cls) (VInt n)) (posts s') = [p] /\
    get_absolute_url post_url cls s' = post_url p s'.
Proof.
  intros Hnd Hsave.
  assert (exists n p, self s' !! "id" = Some (VInt n) /\
            filter (refers_to (class_name cls) (VInt n)) (posts s') = [p])
    as (n & p & Hid & Hone).
  { revert Hsave. unfold save. rewrite run_bind.
    destruct (model_save env cls s) as [[[]|e] s0] eqn:Hms; [|done].
    pose proof (model_save_ok env cls _ _ Hms) as (Hposts & _ & [n Hid] & _).
    intros Hup.
    apply upsert_post_ok with (n := n) in Hup
      as (_ & Hself & _ & (p & Hone & _) & _); [|by rewrite Hposts|done].
    exists n, p. by rewrite Hself. }
  exists n, p. split; [done|]. split; [done|].
  unfold get_absolute_url, post_all, getattr. run_monad.
  by rewrite Hid, Hone.
Qed.

End base_properties.

Section base_witnesses.
Import BasePostType.

Lemma save_store_wf_witness :
  store_wf (posts (snd (save env_up Link second_item))).
Proof.
  apply (save_store_wf env_up Link second_item).
  vm_compute. repeat split; apply NoDup_singleton.
Defined.

Lemma save_ok_record_witness :
  exists n p t,
    self (snd (save env_up Article first_article)) !! "id" = Some (VInt n) /\
    filter (refers_to (class_name Article) (VInt n))
      (posts (snd (save env_up Article first_article))) = [p] /\
    denormalised (self (snd (save env_up Article first_article))) p /\
    self (snd (save env_up Article first_article)) !! "date_modified"
      = Some (VDateTime (clock env_up t)) /\
    post_date_modified p
      = VDateTime (clock env_up
                     (pred (ticks (snd (save env_up Article first_article)))))
    /\ (t < pred (ticks (snd (save env_up Article first_article))))%nat.
Proof.
  apply (save_ok_record env_up Article first_article).
  - apply NoDup_nil_2.
  - vm_compute. reflexivity.
Defined.

Lemma resave_adds_nothing_witness :
  let s1 := snd (save env_up Article first_article) in
  length (rows (snd (save env_up Article (with_self renamed_fields s1))))
    = length (rows s1) /\
  length (posts (snd (save env_up Article (with_self renamed_fields s1))))
    = length (posts s1).
Proof.
  apply (resave_adds_nothing env_up Article first_article).
  - apply NoDup_nil_2.
  - vm_compute. reflexivity.
  - vm_compute. reflexivity.
Defined.

Lemma save_keeps_other_records_witness :
  hello_post ∈ posts (snd (save env_up Link second_item)).
Proof.
  apply (save_keeps_other_records env_up Link second_item (VInt 1)).
  - apply NoDup_singleton.
  - vm_compute. reflexivity.
  - left.
  - by intros [? _].
Defined.

Lemma get_absolute_url_unsaved_witness :
  get_absolute_url (fun p => mret (post_slug p)) Article first_article
  = (Raise IndexError, first_article).
Proof.
  apply (get_absolute_url_unsaved Article (fun p => mret (post_slug p))
           first_article VNone); reflexivity.
Defined.

Lemma get_absolute_url_saved_witness :
  exists n p,
    self (snd (save env_up Article first_article)) !! "id" = Some (VInt n) /\
    filter (refers_to (class_name Article) (VInt n))
      (posts (snd (save env_up Article first_article))) = [p] /\
    get_absolute_url (fun p => mret (post_slug p)) Article
      (snd (save env_up Article first_article))
    = (mret (post_slug p) : M pyval) (snd (save env_up Article first_article)).
Proof.
  apply (get_absolute_url_saved env_up Article
           (fun p => mret (post_slug p)) first_article).
  - apply NoDup_nil_2.
  - vm_compute. reflexivity.
Defined.

End base_witnesses.

(** * The options of a post type *)

Section meta_options.
Import TumblelogMeta.

(** Setting the pairs of a list without duplicate names, in order: a
    name of the list gets the value of the list, every other name keeps
    the value it had. *)
Lemma setattr_all_lookup (l : list (string * optval)) dict name :
  NoDup l.*1 ->
  setattr_all l dict !! name =
  match (list_to_map l : gmap string optval) !! name with
  | Some v => Some v
  | None => dict !! name
  end.
Proof.
  revert dict. induction l as [|[k v] l IH]; intros dict Hnd; [done|].
  rewrite fmap_cons in Hnd. apply NoDup_cons in Hnd as [Hk Hnd].
  unfold setattr_all in *. simpl. rewrite IH by done.
  destruct (decide (k = name)) as [->|Hne].
  - rewrite lookup_insert_eq.
    by rewrite (not_elem_of_list_to_map_1 _ name), lookup_insert_eq.
  - by rewrite !lookup_insert_ne.
Qed.

Lemma setattr_all_app (l1 l2 : list (string * optval)) dict :
  setattr_all (l1 ++ l2) dict = setattr_all l2 (setattr_all l1 dict).
Proof. apply foldl_app. Qed.

Lemma init_lookup opts kwargs name :
  __init__ opts kwargs !! name =
  match kwargs !! name with
  | Some v => Some v
  | None => opts ≫= (.!! name)
  end.
Proof.
  unfold __init__. rewrite setattr_all_app.
  rewrite setattr_all_lookup by apply NoDup_fst_map_to_list.
  rewrite list_to_map_to_list.
  destruct (kwargs !! name); [done|].
  destruct opts as [class_dict|]; simpl; [|done].
  rewrite setattr_all_lookup by apply NoDup_fst_map_to_list.
  rewrite list_to_map_to_list. by destruct (class_dict !! name).
Qed.

(** Iterating over the options of a post type yields exactly the options
    that were given: every keyword argument, and every attribute of the
    inner class that no keyword argument replaces.  The defaults of the
    class are not among them. *)
Theorem iter_yields_given_options opts kwargs name v :
  (name, v) ∈ __iter__ (__init__ opts kwargs) <->
  kwargs !! name = Some v \/
  (kwargs !! name = None /\
   exists class_dict, opts = Some class_dict /\ class_dict !! name = Some v).
Proof.
  unfold __iter__. rewrite elem_of_map_to_list, init_lookup.
  destruct (kwargs !! name) as [w|].
  - split; [intros [= ->]; by left|].
    by intros [[= ->]|[[=] _]].
  - destruct opts as [class_dict|]; simpl.
    + split.
      * intros Hv. right. split; [done|]. by exists class_dict.
      * by intros [[=]|(_ & class_dict' & [= <-] & Hv)].
    + split; [done|]. by intros [[=]|(_ & class_dict' & [=] & _)].
Qed.

(** Reading an option of a post type: the keyword argument if there is
    one, else the attribute of the inner class if it has one, else the
    default of the class. *)
Theorem getattr_precedence opts kwargs name :
  getattr (__init__ opts kwargs) name =
  match kwargs !! name with
  | Some v => Some v
  | None =>
      match opts ≫= (.!! name) with
      | Some v => Some v
      | None => class_attrs !! name
      end
  end.
Proof.
  unfold getattr. rewrite init_lookup.
  destruct (kwargs !! name); [done|]. by destruct (opts ≫= _).
Qed.

End meta_options.

(** * The migration of the schema *)

Section migration.
Import Migration.
Context (column : string).

(** Adding a column to the tables of a list without duplicates succeeds
    exactly when every table exists and lacks the column; the tables of
    the list then have the column too, and nothing else has changed. *)
Lemma add_columns_spec (tables : list string) (db : gmap string (gset string)) :
  NoDup tables ->
  match for_each (fun table => add_column table column) tables db with
  | Some db' =>
      Forall (fun table => exists columns,
                db !! table = Some columns /\ column ∉ columns) tables /\
      forall table,
        db' !! table =
        if decide (table ∈ tables)
        then (fun columns => {[column]} ∪ columns) <$> db !! table
        else db !! table
  | None =>
      ~ Forall (fun table => exists columns,
                  db !! table = Some columns /\ column ∉ columns) tables
  end.
Proof.
  revert db. induction tables as [|t tables IH]; intros db Hnd.
  - simpl. split; [constructor|]. intros table.
    destruct (decide (table ∈ [])) as [Hin|]; [|done].
    by apply elem_of_nil in Hin.
  - apply NoDup_cons in Hnd as [Ht Hnd]. cbn [for_each].
    destruct (db !! t) as [columns|] eqn:Hdb.
    + destruct (decide (column ∈ columns)) as [Hin|Hout].
      * replace (add_column t column db) with (@None (gmap string (gset string)))
          by (unfold add_column; by rewrite Hdb, decide_True).
        simpl. intros [(c & Hc & Hcol) _]%Forall_cons. congruence.
      * replace (add_column t column db)
          with (Some (<[t := {[column]} ∪ columns]> db))
          by (unfold add_column; by rewrite Hdb, decide_False).
        simpl.
        specialize (IH (<[t := {[column]} ∪ columns]> db) Hnd).
        destruct (for_each _ tables _) as [db'|].
        -- destruct IH as [Hall Hlook]. split.
           ++ apply Forall_cons. split; [eauto|].
              rewrite Forall_forall in *. intros x Hx.
              destruct (Hall x Hx) as (c & Hc & Hcol).
              rewrite lookup_insert_ne in Hc by (by intros ->). eauto.
           ++ intros table. rewrite Hlook.
              destruct (decide (table = t)) as [->|Hne].
              ** rewrite decide_False by done.
                 rewrite decide_True by left.
                 by rewrite lookup_insert_eq, Hdb.
              ** rewrite lookup_insert_ne by done.
                 destruct (decide (table ∈ tables)) as [Hx|Hx].
                 --- by rewrite decide_True by (by right).
                 --- rewrite decide_False; [done|].
                     by intros [?|?]%elem_of_cons.
        -- intros [_ Hall]%Forall_cons. apply IH.
           rewrite Forall_forall in *. intros x Hx.
           destruct (Hall x Hx) as (c & Hc & Hcol).
           exists c. by rewrite lookup_insert_ne by (by intros ->).
    + replace (add_column t column db) with (@None (gmap string (gset string)))
        by (unfold add_column; by rewrite Hdb).
      simpl. intros [(c & Hc & _) _]%Forall_cons. congruence.
Qed.

Lemma delete_columns_spec (tables : list string) (db : gmap string (gset string)) :
  NoDup tables ->
  match for_each (fun table => delete_column table column) tables db with
  | Some db' =>
      Forall (fun table => exists columns,
                db !! table = Some columns /\ column ∈ columns) tables /\
      forall table,
        db' !! table =
        if decide (table ∈ tables)
        then (fun columns => columns ∖ {[column]}) <$> db !! table
        else db !! table
  | None =>
      ~ Forall (fun table => exists columns,
                  db !! table = Some columns /\ column ∈ columns) tables
  end.
Proof.
  revert db. induction tables as [|t tables IH]; intros db Hnd.
  - simpl. split; [constructor|]. intros table.
    destruct (decide (table ∈ [])) as [Hin|]; [|done].
    by apply elem_of_nil in Hin.
  - apply NoDup_cons in Hnd as [Ht Hnd]. cbn [for_each].
    destruct (db !! t) as [columns|] eqn:Hdb.
    + destruct (decide (column ∈ columns)) as [Hin|Hout].
      * replace (delete_column t column db)
          with (Some (<[t := columns ∖ {[column]}]> db))
          by (unfold delete_column; by rewrite Hdb, decide_True).
        simpl.
        specialize (IH (<[t := columns ∖ {[column]}]> db) Hnd).
        destruct (for_each _ tables _) as [db'|].
        -- destruct IH as [Hall Hlook]. split.
           ++ apply Forall_cons. split; [eauto|].
              rewrite Forall_forall in *. intros x Hx.
              destruct (Hall x Hx) as (c & Hc & Hcol).
              rewrite lookup_insert_ne in Hc by (by intros ->). eauto.
           ++ intros table. rewrite Hlook.
              destruct (decide (table = t)) as [->|Hne].
              ** rewrite decide_False by done.
                 rewrite decide_True by left.
                 by rewrite lookup_insert_eq, Hdb.
              ** rewrite lookup_insert_ne by done.
                 destruct (decide (table ∈ tables)) as [Hx|Hx].
                 --- by rewrite decide_True by (by right).
                 --- rewrite decide_False; [done|].
                     by intros [?|?]%elem_of_cons.
        -- intros [_ Hall]%Forall_cons. apply IH.
           rewrite Forall_forall in *. intros x Hx.
           destruct (Hall x Hx) as (c & Hc & Hcol).
           exists c. by rewrite lookup_insert_ne by (by intros ->).
      * replace (delete_column t column db)
          with (@None (gmap string (gset string)))
          by (unfold delete_column; by rewrite Hdb, decide_False).
        simpl. intros [(c & Hc & Hcol) _]%Forall_cons. congruence.
    + replace (delete_column t column db)
        with (@None (gmap string (gset string)))
        by (unfold delete_column; by rewrite Hdb).
      simpl. intros [(c & Hc & _) _]%Forall_cons. congruence.
Qed.

End migration.

Section migration_properties.
Import Migration.

Lemma forwards_tables_NoDup : NoDup forwards_tables.
Proof. apply (bool_decide_unpack _). vm_compute. exact I. Qed.

(** The migration succeeds exactly when each of the fourteen tables
    exists and has no column [meta_description]; it then adds that column
    to each of them and changes nothing else. *)
Theorem forwards_succeeds_iff db :
  (is_Some (forwards db) <->
   Forall (fun table => exists columns,
             db !! table = Some columns /\ "meta_description" ∉ columns)
     forwards_tables) /\
  forall db', forwards db = Some db' ->
    forall table,
      db' !! table =
      if decide (table ∈ forwards_tables)
      then (fun columns => {["meta_description"]} ∪ columns) <$> db !! table
      else db !! table.
Proof.
  pose proof (add_columns_spec "meta_description" forwards_tables db
                forwards_tables_NoDup) as Hspec.
  unfold forwards. destruct (for_each _ forwards_tables db) as [db'|].
  - destruct Hspec as [Hall Hlook]. split; [by split; eauto|].
    by intros ? [= <-].
  - split; [|done]. split; [by intros [? ?]|done].
Qed.

Lemma forwards_succeeds_iff_witness :
  db_after !! "tumblelog_link"
  = (fun columns => {["meta_description"]} ∪ columns)
      <$> db_before !! "tumblelog_link".
Proof.
  assert (Hrun : Migration.forwards db_before = Some db_after)
    by (apply (bool_decide_unpack _); vm_compute; exact I).
  rewrite (proj2 (forwards_succeeds_iff db_before) db_after Hrun
             "tumblelog_link").
  apply decide_True. apply (bool_decide_unpack _). vm_compute. exact I.
Defined.

(** Migrating backwards undoes the migration: from the database that the
    migration produces, the backward migration succeeds and gives back
    the database it started from. *)
Theorem forwards_then_backwards db db' :
  forwards db = Some db' -> backwards db' = Some db.
Proof.
  intros Hfw.
  pose proof (add_columns_spec "meta_description" forwards_tables db
                forwards_tables_NoDup) as Hadd.
  unfold forwards in Hfw. rewrite Hfw in Hadd. destruct Hadd as [Hall Hlook].
  pose proof (delete_columns_spec "meta_description" forwards_tables db'
                forwards_tables_NoDup) as Hdel.
  unfold backwards. change backwards_tables with forwards_tables.
  rewrite Forall_forall in Hall.
  destruct (for_each _ forwards_tables db') as [db''|].
  - destruct Hdel as [_ Hlook']. f_equal. apply map_eq. intros table.
    rewrite Hlook', Hlook.
    destruct (decide (table ∈ forwards_tables)) as [Hin|]; [|done].
    destruct (Hall table Hin) as (columns & -> & Hcol). simpl. f_equal.
    apply set_eq. intros x.
    rewrite elem_of_difference, elem_of_union, elem_of_singleton.
    split; [tauto|]. intros Hx. split; [tauto|]. by intros ->.
  - exfalso. apply Hdel. apply Forall_forall. intros table Hin.
    destruct (Hall table Hin) as (columns & Hdb & Hcol).
    exists ({["meta_description"]} ∪ columns). split.
    + by rewrite Hlook, decide_True, Hdb.
    + apply elem_of_union. left. by apply elem_of_singleton.
Qed.

Lemma forwards_then_backwards_witness : backwards db_after = Some db_before.
Proof.
  apply (forwards_then_backwards db_before db_after).
  apply (bool_decide_unpack _). vm_compute. exact I.
Defined.

End migration_properties.

(** * The refresh and the row of an item *)

Section refresh_success.
Import BaseOembedPostType.

(** A refresh whose response has the key of every entry that applies
    succeeds; it sends one request, and unless the table itself names
    [date_updated], the item then holds the time of the refresh as
    [date_updated]. *)
Theorem oembed_update_success env cls s data :
  embed env (self (refreshing env s)) = Response data ->
  Forall (entry_ready (refreshing env s) data) (oembed_map cls) ->
  "date_updated" ∉ fields_of (oembed_map cls) ->
  oembed_update env cls s
  = (Ok tt,
     with_self (assign_all cls data (oembed_map cls)
                  (self (refreshing env s))) (refreshing env s)) /\
  self (snd (oembed_update env cls s)) !! "date_updated"
  = Some (VDateTime (clock env (ticks s))) /\
  trace (snd (oembed_update env cls s)) = trace s ++ [EvFetch].
Proof.
  intros Hresp Hready Hdate.
  rewrite oembed_update_run, Hresp.
  unfold oembed_map_values. rewrite map_entries_Some.
  split; [done|]. split; [|done]. simpl.
  rewrite assign_all_other by done. apply lookup_insert_eq.
Qed.

Lemma oembed_update_success_witness :
  oembed_update env_up BaseOembedLink link_loaded
  = (Ok tt,
     with_self (assign_all BaseOembedLink twitter_response
                  (oembed_map BaseOembedLink)
                  (self (refreshing env_up link_loaded)))
       (refreshing env_up link_loaded)) /\
  self (snd (oembed_update env_up BaseOembedLink link_loaded))
    !! "date_updated" = Some (VDateTime (clock env_up (ticks link_loaded))) /\
  trace (snd (oembed_update env_up BaseOembedLink link_loaded))
  = trace link_loaded ++ [EvFetch].
Proof.
  apply (oembed_update_success env_up BaseOembedLink link_loaded
           twitter_response).
  - reflexivity.
  - repeat constructor; intros _; by eexists.
  - apply (bool_decide_unpack _). vm_compute. exact I.
Defined.

End refresh_success.

Section stored_row.
Import BasePostType.
Context (env : Env) (cls : PostType).

Lemma model_save_ok_fields s s' :
  model_save env cls s = (Ok tt, s') ->
  exists n, self s' !! "id" = Some (VInt n) /\
    Forall (fun r => row_table r = class_name cls -> row_pk r = n ->
                     row_fields r = self s') (rows s').
Proof.
  unfold model_save, getattr. run_monad.
  destruct (self s !! "id") as [id|]; [|done].
  destruct id as [|n| |]; simpl; try done.
  all: destruct (bool_decide _) eqn:Hadd; simpl;
       (destruct (_ !! "slug"); simpl; [|done]);
       (destruct (decide (row_slug_taken _ _ _ _)) as [|Hfree]; simpl;
        [done|]);
       intros [= <-]; simpl; eexists; (split; [apply lookup_insert_eq|]).
  all: first
    [ apply bool_decide_eq_true in Hadd;
      apply Forall_app; split; [|by repeat constructor];
      apply Forall_forall; intros r Hr Ht Hpk; exfalso;
      apply Hadd, Exists_exists; by exists r
    | unfold replace_row; apply Forall_fmap, Forall_forall;
      intros r Hr; simpl;
      destruct (decide _) as [|Hno]; [done|];
      intros Ht Hpk; exfalso; by apply Hno ].
Qed.

Lemma save_ok_row_fields s s' :
  save env cls s = (Ok tt, s') ->
  exists n, self s' !! "id" = Some (VInt n) /\
    has_row (class_name cls) n (rows s') /\
    Forall (fun r => row_table r = class_name cls -> row_pk r = n ->
                     row_fields r = self s') (rows s').
Proof.
  unfold save. rewrite run_bind.
  destruct (model_save env cls s) as [[[]|e] s0] eqn:Hms; [|done].
  pose proof (model_save_ok_row env cls _ _ Hms) as (n & Hid & Hrow).
  pose proof (model_save_ok_fields _ _ Hms) as (n' & Hid' & Hfields).
  rewrite Hid in Hid'. injection Hid' as <-.
  intros Hup.
  pose proof (upsert_post_rows env cls s0) as Hrows.
  pose proof (upsert_post_self env cls s0) as Hself.
  rewrite Hup in Hrows, Hself. simpl in *.
  exists n. by rewrite Hrows, Hself.
Qed.

(** After a save that succeeds, the row of the item in the table of its
    type holds exactly the attributes of the item: what is stored is what
    the instance holds. *)
Theorem save_row_matches_self s s' :
  save env cls s = (Ok tt, s') ->
  exists n, self s' !! "id" = Some (VInt n) /\
    has_row (class_name cls) n (rows s') /\
    Forall (fun r => row_table r = class_name cls -> row_pk r = n ->
                     row_fields r = self s') (rows s').
Proof. apply save_ok_row_fields. Qed.

(** [Model.save] changes no attribute but the key and the two dates it
    stamps. *)
Lemma model_save_self_other s s' name :
  model_save env cls s = (Ok tt, s') ->
  name ∉ stamped -> self s' !! name = self s !! name.
Proof.
  intros Hsave Hname. unfold stamped in Hname.
  rewrite !not_elem_of_cons in Hname. destruct Hname as (H1 & H2 & H3 & _).
  revert Hsave. unfold model_save, getattr. run_monad.
  repeat (case_match; simplify_eq/=; try done);
    intros [= <-]; simpl; by rewrite !lookup_insert_ne by congruence.
Qed.

Lemma save_self_other s s' name :
  save env cls s = (Ok tt, s') ->
  name ∉ stamped -> self s' !! name = self s !! name.
Proof.
  unfold save. rewrite run_bind.
  destruct (model_save env cls s) as [[[]|e] s0] eqn:Hms; [|done].
  intros Hup Hname.
  pose proof (upsert_post_self env cls s0) as Hself.
  rewrite Hup in Hself. simpl in Hself. rewrite Hself.
  by apply (model_save_self_other s).
Qed.

End stored_row.

Lemma save_row_matches_self_witness :
  exists n,
    self (snd (BasePostType.save env_up Article first_article)) !! "id"
      = Some (VInt n) /\
    has_row (class_name Article) n
      (rows (snd (BasePostType.save env_up Article first_article))) /\
    Forall (fun r => row_table r = class_name Article -> row_pk r = n ->
              row_fields r
              = self (snd (BasePostType.save env_up Article first_article)))
      (rows (snd (BasePostType.save env_up Article first_article))).
Proof.
  apply (save_row_matches_self env_up Article first_article).
  vm_compute. reflexivity.
Defined.

(** * The save of an item with remote metadata *)

Section oembed_save.
Import BaseOembedPostType.

(** C9: a save of an oEmbed-backed item first sends the request of the
    refresh, whatever the state of the item, and writes to the store
    only after that: the trace of the save is the trace so far, the
    request, and then the rest, which for a save that succeeds begins with
    the write of the item's row.  A save succeeds only if the provider
    answered (or swallowed an HTTP error with a table of which no entry
    applies), and what it writes is what the refresh left: the row of the
    item holds the attributes of the instance, and with a table that names
    no attribute twice every attribute that an entry names and the
    instance has holds the cleaned value of the entry's key in the
    response, the key and the dates that the store stamps apart. *)
Theorem C9_save_refreshes_first env cls s :
  (exists rest,
     trace (snd (BaseOembedPostType.save env cls s))
       = trace s ++ EvFetch :: rest /\
     match fst (BaseOembedPostType.save env cls s) with
     | Ok _ => exists pk rest', rest = EvItemWrite (class_name cls) pk :: rest'
     | Raise _ => True
     end) /\
  (forall s',
     BaseOembedPostType.save env cls s = (Ok tt, s') ->
     match embed env (self (refreshing env s)) with
     | Response data =>
         exists n,
           self s' !! "id" = Some (VInt n) /\
           has_row (class_name cls) n (rows s') /\
           Forall (fun r => row_table r = class_name cls -> row_pk r = n ->
                            row_fields r = self s') (rows s') /\
           (NoDup (fields_of (oembed_map cls)) ->
            forall m, m ∈ oembed_map cls ->
              is_Some (self (refreshing env s) !! snd (unpack m)) ->
              snd (unpack m) ∉ stamped ->
              self s' !! snd (unpack m)
              = Some (oembed_clean_value cls (snd (unpack m))
                        (default VNone (data !! fst (unpack m)))))
     | HTTPFailure _ =>
         existsb (applies (refreshing env s)) (oembed_map cls) = false
     | OtherFailure => False
     end).
Proof.
  split.
  - unfold BaseOembedPostType.save. rewrite run_bind.
    pose proof (oembed_update_trace env cls s) as Hupd.
    destruct (BaseOembedPostType.oembed_update env cls s) as [[[]|e] s1];
      simpl in Hupd.
    + unfold BasePostType.save. rewrite run_bind.
      pose proof (model_save_trace env cls s1) as Hsave.
      destruct (model_save env cls s1) as [[[]|e] s2].
      * destruct Hsave as [pk Hpk].
        destruct (upsert_post_trace env cls s2) as [rest Hrest].
        exists (EvItemWrite (class_name cls) pk :: rest). split.
        -- rewrite Hrest, Hpk, Hupd. by rewrite <- !app_assoc.
        -- destruct (fst _); eauto.
      * exists []. simpl. split; [congruence|done].
    + exists []. simpl. split; [congruence|done].
  - intros s'. unfold BaseOembedPostType.save.
    rewrite run_bind, oembed_update_run. unfold oembed_map_values.
    destruct (embed env (self (refreshing env s))) as [data|code|].
    + rewrite map_entries_Some. intros Hsave.
      destruct (save_ok_row_fields env cls _ _ Hsave)
        as (n & Hid & Hrow & Hfields).
      exists n. split; [done|]. split; [done|]. split; [done|].
      intros Hnd m Hin Hattr Hstamp.
      rewrite (save_self_other env cls _ _ _ Hsave Hstamp). simpl.
      by apply assign_all_lookup.
    + rewrite map_entries_None.
      by destruct (existsb _ _).
    + done.
Qed.

Lemma C9_save_refreshes_first_witness :
  self (snd (save env_photo BaseOembedPhoto photo_new))
    !! snd (unpack (MPair "url" "image_url"))
  = Some (oembed_clean_value BaseOembedPhoto
            (snd (unpack (MPair "url" "image_url")))
            (default VNone
               (photo_response !! fst (unpack (MPair "url" "image_url"))))).
Proof.
  destruct (C9_save_refreshes_first env_photo BaseOembedPhoto photo_new)
    as [_ Hwritten].
  assert (Hsave : save env_photo BaseOembedPhoto photo_new
                  = (Ok tt, snd (save env_photo BaseOembedPhoto photo_new)))
    by (vm_compute; reflexivity).
  specialize (Hwritten _ Hsave).
  change (embed env_photo (self (refreshing env_photo photo_new)))
    with (Response photo_response) in Hwritten.
  cbv beta iota in Hwritten.
  destruct Hwritten as (n & _ & _ & _ & Hvalue).
  apply Hvalue.
  - apply (bool_decide_unpack _). vm_compute. exact I.
  - apply list_elem_of_In. vm_compute. tauto.
  - by eexists.
  - apply (bool_decide_unpack _). vm_compute. exact I.
Defined.

End oembed_save.
